(** * taocket: the window-drag script and its invocation bridge

    A shallow embedding of [src/scripts/dragevent.js].  The script has
    three parts: the function [dragging] (press / move / release listeners
    around one drag session), two identical immediately-invoked functions
    that each register a document-wide [mousedown] listener, and the
    immediately-invoked function that installs [window.__API__INVOKE]
    (alias [window.invoke]).

    JavaScript state is threaded explicitly: closure variables ([nextId],
    [isDragging], [startX], [startY]) live in heap cells that the closures
    name by index, so that two references to one function share its cell;
    promises live in a promise store; exceptions are a second kind of
    completion.  *)

From Stdlib Require Import ZArith Ascii String List Bool Lia.
From stdpp Require Import base option list list_numbers strings pretty.

Open Scope Z_scope.
Open Scope string_scope.
Open Scope list_scope.

(** ** JavaScript values and errors *)

(** The serialisable fragment of JavaScript values.  [JNum] carries the
    integer-valued numbers that print as plain digits (all the script itself
    produces: its identifiers run from 1 to 2^53); an object is its own
    enumerable string-keyed properties in enumeration order. *)
#[warnings="-register-all"]
Inductive jsval : Type :=
| JUndefined
| JNull
| JBool (b : bool)
| JNum (n : Z)
| JStr (s : string)
| JArr (items : list jsval)
| JObj (props : list (string * jsval)).

Inductive jserror : Type :=
| TypeError (msg : string)
| ReferenceError (msg : string)
| HostError (payload : jsval).

(** ** Numbers

    [nextId] is a JavaScript Number, an IEEE-754 binary64.  On the integers
    from 0 to 2^53 the addition [x + 1] is exact below 2^53; at 2^53 the
    exact sum 2^53 + 1 lies halfway between the neighbouring doubles 2^53
    and 2^53 + 2 and rounds to the even one, 2^53. *)
Definition MAX_EXACT : Z := 9007199254740992.

Definition num_succ (n : Z) : Z :=
  if (n <? MAX_EXACT)%Z then n + 1 else n.

(** ** JSON.stringify *)

Module JSON.

Definition dquote_char : ascii := ascii_of_N 34.

Definition hex_digit (n : N) : ascii :=
  match n with
  | 0%N => "0" | 1%N => "1" | 2%N => "2" | 3%N => "3" | 4%N => "4"
  | 5%N => "5" | 6%N => "6" | 7%N => "7" | 8%N => "8" | 9%N => "9"
  | 10%N => "a" | 11%N => "b" | 12%N => "c" | 13%N => "d" | 14%N => "e"
  | _ => "f"
  end%char.

(** One code unit of a quoted string (QuoteJSONString). *)
Definition quote_char (c : ascii) : string :=
  let n := N_of_ascii c in
  if (n =? 8)%N then "\b"
  else if (n =? 9)%N then "\t"
  else if (n =? 10)%N then "\n"
  else if (n =? 12)%N then "\f"
  else if (n =? 13)%N then "\r"
  else if (n =? 34)%N then String "\" (String dquote_char EmptyString)
  else if (n =? 92)%N then "\\"
  else if (n <? 32)%N then
    "\u00" +:+ String (hex_digit (n / 16)) (String (hex_digit (n mod 16)) EmptyString)
  else String c EmptyString.

Fixpoint quote_body (s : string) : string :=
  match s with
  | EmptyString => EmptyString
  | String c r => quote_char c +:+ quote_body r
  end.

Definition dquote : string := String dquote_char EmptyString.

Definition quote (s : string) : string := dquote +:+ quote_body s +:+ dquote.

Fixpoint join (sep : string) (parts : list string) : string :=
  match parts with
  | [] => EmptyString
  | [p] => p
  | p :: rest => p +:+ sep +:+ join sep rest
  end.

Definition newline : string := String (ascii_of_N 10) EmptyString.

(** Wrapping of the serialised members of an object or an array. *)
Definition wrap (opening closing gap stepback indent : string)
    (parts : list string) : string :=
  match parts with
  | [] => opening +:+ closing
  | _ =>
      if decide (gap = EmptyString) then
        opening +:+ join "," parts +:+ closing
      else
        opening +:+ newline +:+ indent
          +:+ join ("," +:+ newline +:+ indent) parts
          +:+ newline +:+ stepback +:+ closing
  end.

(** SerializeJSONProperty: [None] is the result [undefined]. *)
Fixpoint ser (gap indent : string) (v : jsval) : option string :=
  match v with
  | JUndefined => None
  | JNull => Some "null"
  | JBool true => Some "true"
  | JBool false => Some "false"
  | JNum n => Some (pretty n)
  | JStr s => Some (quote s)
  | JArr items =>
      let inner := indent +:+ gap in
      let parts :=
        (fix elems (l : list jsval) : list string :=
           match l with
           | [] => []
           | x :: r => default "null" (ser gap inner x) :: elems r
           end) items in
      Some (wrap "[" "]" gap indent inner parts)
  | JObj props =>
      let inner := indent +:+ gap in
      let colon := if decide (gap = EmptyString) then ":" else ": " in
      let parts :=
        (fix members (l : list (string * jsval)) : list string :=
           match l with
           | [] => []
           | (k, x) :: r =>
               match ser gap inner x with
               | Some sx => (quote k +:+ colon +:+ sx) :: members r
               | None => members r
               end
           end) props in
      Some (wrap "{" "}" gap indent inner parts)
  end.

Fixpoint spaces (n : nat) : string :=
  match n with
  | O => EmptyString
  | S k => String " " (spaces k)
  end.

(** [JSON.stringify(v, null, space)] for a numeric [space]: the gap is
    [min(10, space)] blanks. *)
Definition stringify (v : jsval) (space : nat) : jsval :=
  match ser (spaces (Nat.min 10 space)) EmptyString v with
  | Some s => JStr s
  | None => JUndefined
  end.

(** JSON insignificant white space, removed outside string literals. *)
Definition is_ws (c : ascii) : bool :=
  let n := N_of_ascii c in
  ((n =? 32) || (n =? 10) || (n =? 13) || (n =? 9))%N.

Fixpoint strip_ws (in_str esc : bool) (s : string) : string :=
  match s with
  | EmptyString => EmptyString
  | String c r =>
      if in_str then
        String c (strip_ws (if esc then true
                            else negb (N_of_ascii c =? 34)%N)
                           (if esc then false else (N_of_ascii c =? 92)%N) r)
      else if is_ws c then strip_ws false false r
      else String c (strip_ws (N_of_ascii c =? 34)%N false r)
  end.

End JSON.

(** Expected wire texts are written with an apostrophe for each double
    quote. *)
Fixpoint dq (s : string) : string :=
  match s with
  | EmptyString => EmptyString
  | String c r =>
      String (if (N_of_ascii c =? 39)%N then JSON.dquote_char else c) (dq r)
  end.

(** ** The page: heap cells, window properties, listeners *)

Inductive pstate : Type :=
| Pending
| Fulfilled (v : jsval)
| Rejected (e : jserror).

(** The closure variables of one run of [dragging]. *)
Record session : Type := mkSession {
  isDragging : bool;
  startX : Z;
  startY : Z
}.

(** [window.ipc]: missing, an object without a [postMessage] method, or the
    host's object, whose [postMessage] returns or raises as the host
    decides. *)
Inductive ipc_object : Type :=
| IpcMissing
| IpcNoMethod
| IpcHost (postMessage : jsval -> option jserror).

Inductive event_target : Type := Region | Document | Window.
Inductive event_type : Type := Mousedown | Mousemove | Mouseup.

(** The function values the script registers as listeners; the three of
    [dragging] close over the session cell [s]. *)
Inductive callback : Type :=
| DragDown (s : nat)
| DragMove (s : nat)
| DragUp (s : nat)
| FallbackDown.

Record registration : Type := mkReg {
  reg_target : event_target;
  reg_type : event_type;
  reg_callback : callback
}.

(** The mutable flags of the event being dispatched. *)
Record evflags : Type := mkFlags {
  defaultPrevented : bool;
  propagationStopped : bool;
  immediateStopped : bool
}.

Definition no_flags : evflags := mkFlags false false false.

(** One entry into the body of the bridge function, noted when its
    identifier has been taken (ghost state: the script keeps no such log). *)
Record call : Type := mkCall {
  call_id : Z;
  call_event : string;
  call_value : jsval
}.

Record world : Type := mkWorld {
  nextId_cells : list Z;          (* one [nextId] per bridge installation *)
  promises : list pstate;
  sessions : list session;
  win_API_INVOKE : option nat;    (* window.__API__INVOKE: a closure, by its cell *)
  win_invoke : option nat;        (* window.invoke *)
  win_ipc : ipc_object;           (* window.ipc *)
  outbox : list jsval;            (* arguments handed to postMessage, oldest first *)
  calls : list call;              (* ghost, oldest first *)
  has_region : bool;              (* an element matches [data-taoket-drag-region] *)
  listeners : list registration;  (* in registration order *)
  flags : evflags;
  reported : list jserror         (* exceptions that escaped a listener *)
}.

Definition set_nextId_cells (x : list Z) (w : world) : world :=
  mkWorld x (promises w) (sessions w) (win_API_INVOKE w) (win_invoke w)
    (win_ipc w) (outbox w) (calls w) (has_region w) (listeners w) (flags w)
    (reported w).
Definition set_promises (x : list pstate) (w : world) : world :=
  mkWorld (nextId_cells w) x (sessions w) (win_API_INVOKE w) (win_invoke w)
    (win_ipc w) (outbox w) (calls w) (has_region w) (listeners w) (flags w)
    (reported w).
Definition set_sessions (x : list session) (w : world) : world :=
  mkWorld (nextId_cells w) (promises w) x (win_API_INVOKE w) (win_invoke w)
    (win_ipc w) (outbox w) (calls w) (has_region w) (listeners w) (flags w)
    (reported w).
Definition set_win_API_INVOKE (x : option nat) (w : world) : world :=
  mkWorld (nextId_cells w) (promises w) (sessions w) x (win_invoke w)
    (win_ipc w) (outbox w) (calls w) (has_region w) (listeners w) (flags w)
    (reported w).
Definition set_win_invoke (x : option nat) (w : world) : world :=
  mkWorld (nextId_cells w) (promises w) (sessions w) (win_API_INVOKE w) x
    (win_ipc w) (outbox w) (calls w) (has_region w) (listeners w) (flags w)
    (reported w).
Definition set_outbox (x : list jsval) (w : world) : world :=
  mkWorld (nextId_cells w) (promises w) (sessions w) (win_API_INVOKE w)
    (win_invoke w) (win_ipc w) x (calls w) (has_region w) (listeners w)
    (flags w) (reported w).
Definition set_calls (x : list call) (w : world) : world :=
  mkWorld (nextId_cells w) (promises w) (sessions w) (win_API_INVOKE w)
    (win_invoke w) (win_ipc w) (outbox w) x (has_region w) (listeners w)
    (flags w) (reported w).
Definition set_listeners (x : list registration) (w : world) : world :=
  mkWorld (nextId_cells w) (promises w) (sessions w) (win_API_INVOKE w)
    (win_invoke w) (win_ipc w) (outbox w) (calls w) (has_region w) x
    (flags w) (reported w).
Definition set_flags (x : evflags) (w : world) : world :=
  mkWorld (nextId_cells w) (promises w) (sessions w) (win_API_INVOKE w)
    (win_invoke w) (win_ipc w) (outbox w) (calls w) (has_region w)
    (listeners w) x (reported w).
Definition set_reported (x : list jserror) (w : world) : world :=
  mkWorld (nextId_cells w) (promises w) (sessions w) (win_API_INVOKE w)
    (win_invoke w) (win_ipc w) (outbox w) (calls w) (has_region w)
    (listeners w) (flags w) x.

(** A page on which no script has run yet. *)
Definition fresh_page (region : bool) (ipc : ipc_object) : world :=
  mkWorld [] [] [] None None ipc [] [] region [] no_flags [].

(** ** Computations: state and exceptions *)

Inductive completion (A : Type) : Type :=
| Normal (a : A)
| Throw (e : jserror).
Arguments Normal {A} a.
Arguments Throw {A} e.

Definition M (A : Type) : Type := world -> completion A * world.

Definition ret {A} (a : A) : M A := fun w => (Normal a, w).

Definition bind {A B} (c : M A) (k : A -> M B) : M B :=
  fun w =>
    match c w with
    | (Normal a, w') => k a w'
    | (Throw e, w') => (Throw e, w')
    end.

Definition throw {A} (e : jserror) : M A := fun w => (Throw e, w).

Definition gets {A} (f : world -> A) : M A := fun w => (Normal (f w), w).

Definition modify (f : world -> world) : M unit := fun w => (Normal tt, f w).

Notation "x <- c ;; k" := (bind c (fun x => k))
  (at level 100, c at next level, right associativity).
Notation "c ;; k" := (bind c (fun _ => k))
  (at level 100, right associativity).

(** The world a computation leaves, and its completion. *)
Definition exec {A} (c : M A) (w : world) : world := snd (c w).
Definition outcome {A} (c : M A) (w : world) : completion A := fst (c w).

(** ** The invocation bridge *)

(** [new Promise(executor)]: the executor runs at once with the promise's
    two resolving functions; an exception it raises is caught by the
    constructor and passed to the reject function.  A resolving function
    acts on a pending promise only. *)
Definition settle (p : nat) (s : pstate) : M unit :=
  modify (fun w =>
    match promises w !! p with
    | Some Pending => set_promises (<[p := s]> (promises w)) w
    | _ => w
    end).

Definition new_promise
    (executor : (jsval -> M unit) -> (jserror -> M unit) -> M unit) : M nat :=
  fun w =>
    let p := length (promises w) in
    let resolve := fun v => settle p (Fulfilled v) in
    let reject := fun e => settle p (Rejected e) in
    match executor resolve reject (set_promises (promises w ++ [Pending]) w) with
    | (Normal _, w') => (Normal p, w')
    | (Throw e, w') => (Normal p, exec (reject e) w')
    end.

(** [const id = nextId++] on the cell of the called closure. *)
Definition take_id (cell : nat) : M Z :=
  fun w =>
    let id := default 1 (nextId_cells w !! cell) in
    (Normal id, set_nextId_cells (<[cell := num_succ id]> (nextId_cells w)) w).

Definition envelope (id : Z) (event : string) (value : jsval) : jsval :=
  JObj [("payload",
         JObj [("id", JNum id);
               ("event", JObj [("type", JStr event); ("value", value)])])].

(** [window.ipc.postMessage(message)] *)
Definition ipc_postMessage (message : jsval) : M unit :=
  fun w =>
    match win_ipc w with
    | IpcMissing =>
        (Throw (TypeError "Cannot read properties of undefined (reading 'postMessage')"), w)
    | IpcNoMethod =>
        (Throw (TypeError "window.ipc.postMessage is not a function"), w)
    | IpcHost post =>
        let w' := set_outbox (outbox w ++ [message]) w in
        match post message with
        | None => (Normal tt, w')
        | Some e => (Throw e, w')
        end
    end.

(** The function [invoke] created by the installation that owns [cell]. *)
Definition invoke_fn (cell : nat) (event : string) (value : jsval) : M nat :=
  new_promise (fun resolve reject =>
    id <- take_id cell ;;
    modify (fun w => set_calls (calls w ++ [mkCall id event value]) w) ;;
    let message := JSON.stringify (envelope id event value) 2 in
    ipc_postMessage message).

(** The last immediately-invoked function of the script. *)
Definition install_bridge : M unit :=
  fun w =>
    match win_API_INVOKE w with
    | Some _ => (Normal tt, w)
    | None =>
        let cell := length (nextId_cells w) in
        let w1 := set_nextId_cells (nextId_cells w ++ [1]) w in
        let w2 := set_win_API_INVOKE (Some cell) w1 in
        (Normal tt, set_win_invoke (win_API_INVOKE w2) w2)
    end.

(** A call [invoke(event, value)] through the global name. *)
Definition invoke (event : string) (value : jsval) : M nat :=
  fun w =>
    match win_invoke w with
    | Some cell => invoke_fn cell event value w
    | None => (Throw (ReferenceError "invoke is not defined"), w)
    end.

(** ** Events and listeners *)

(** What the listeners read of a mouse event.  [target_marker] is the
    result of [e.target.getAttribute("data-taocket-drag-region")] ([None]
    for [null]); [through_region] says whether the element found by
    [dragging] is the target or one of its ancestors. *)
Record mouse_event : Type := mkMouse {
  button : Z;
  detail : Z;
  clientX : Z;
  clientY : Z;
  target_marker : option string;
  through_region : bool
}.

Definition read_session (s : nat) : M session :=
  gets (fun w => default (mkSession false 0 0) (sessions w !! s)).

Definition write_session (s : nat) (f : session -> session) : M unit :=
  modify (fun w =>
    match sessions w !! s with
    | Some x => set_sessions (<[s := f x]> (sessions w)) w
    | None => w
    end).

Definition assign_isDragging (s : nat) (b : bool) : M unit :=
  write_session s (fun x => mkSession b (startX x) (startY x)).
Definition assign_startX (s : nat) (v : Z) : M unit :=
  write_session s (fun x => mkSession (isDragging x) v (startY x)).
Definition assign_startY (s : nat) (v : Z) : M unit :=
  write_session s (fun x => mkSession (isDragging x) (startX x) v).

Definition preventDefault : M unit :=
  modify (fun w =>
    set_flags (mkFlags true (propagationStopped (flags w))
                       (immediateStopped (flags w))) w).

Definition stopPropagation : M unit :=
  modify (fun w =>
    set_flags (mkFlags (defaultPrevented (flags w)) true
                       (immediateStopped (flags w))) w).

Definition stopImmediatePropagation : M unit :=
  modify (fun w =>
    set_flags (mkFlags (defaultPrevented (flags w)) true true) w).

(** The [mousedown] listener of the drag region. *)
Definition drag_mousedown (s : nat) (e : mouse_event) : M unit :=
  if negb (button e =? 0)%Z then ret tt
  else
    assign_isDragging s true ;;
    assign_startX s (clientX e) ;;
    assign_startY s (clientY e) ;;
    _ <- invoke "Move" (JBool true) ;;
    preventDefault ;;
    stopPropagation.

(** The [mousemove] listener of the window. *)
Definition drag_mousemove (s : nat) (e : mouse_event) : M unit :=
  x <- read_session s ;;
  if negb (isDragging x) then ret tt
  else
    x1 <- read_session s ;;
    let deltaX := clientX e - startX x1 in
    x2 <- read_session s ;;
    let deltaY := clientY e - startY x2 in
    ret tt.

(** The [mouseup] listener of the window. *)
Definition drag_mouseup (s : nat) : M unit :=
  x <- read_session s ;;
  if negb (isDragging x) then ret tt
  else
    assign_isDragging s false ;;
    _ <- invoke "Move" (JBool false) ;;
    ret tt.

(** The document-wide [mousedown] listener (both copies run this body;
    their captured [initialX] and [initialY] are never read or written). *)
Definition fallback_mousedown (e : mouse_event) : M unit :=
  let attr := target_marker e in
  if bool_decide (attr <> None) && ((detail e =? 1)%Z || (detail e =? 2)%Z) then
    preventDefault ;;
    stopImmediatePropagation ;;
    _ <- invoke "Move" (JBool true) ;;
    ret tt
  else ret tt.

Definition run_callback (cb : callback) (e : mouse_event) : M unit :=
  match cb with
  | DragDown s => drag_mousedown s e
  | DragMove s => drag_mousemove s e
  | DragUp s => drag_mouseup s
  | FallbackDown => fallback_mousedown e
  end.

(** *** Registration and dispatch *)

(** Every call of the script passes a newly created function, so nothing
    is ever dropped as a duplicate. *)
Definition addEventListener (t : event_target) (ty : event_type)
    (cb : callback) : M unit :=
  modify (fun w => set_listeners (listeners w ++ [mkReg t ty cb]) w).

Definition target_eqb (a b : event_target) : bool :=
  match a, b with
  | Region, Region | Document, Document | Window, Window => true
  | _, _ => false
  end.

Definition type_eqb (a b : event_type) : bool :=
  match a, b with
  | Mousedown, Mousedown | Mousemove, Mousemove | Mouseup, Mouseup => true
  | _, _ => false
  end.

Fixpoint listeners_on (t : event_target) (ty : event_type)
    (rs : list registration) : list callback :=
  match rs with
  | [] => []
  | r :: rest =>
      if target_eqb (reg_target r) t && type_eqb (reg_type r) ty
      then reg_callback r :: listeners_on t ty rest
      else listeners_on t ty rest
  end.

(** An exception that escapes a listener is reported and the dispatch goes
    on. *)
Definition report (c : M unit) : M unit :=
  fun w =>
    match c w with
    | (Normal _, w') => (Normal tt, w')
    | (Throw e, w') => (Normal tt, set_reported (reported w' ++ [e]) w')
    end.

(** The listeners of one target, in registration order, until one stops
    immediate propagation. *)
Fixpoint invoke_listeners (cbs : list callback) (e : mouse_event) : M unit :=
  match cbs with
  | [] => ret tt
  | cb :: rest =>
      stopped <- gets (fun w => immediateStopped (flags w)) ;;
      if stopped then ret tt
      else report (run_callback cb e) ;; invoke_listeners rest e
  end.

(** The bubbling of an event along its path, until propagation is
    stopped. *)
Fixpoint bubble (path : list event_target) (ty : event_type)
    (e : mouse_event) : M unit :=
  match path with
  | [] => ret tt
  | t :: rest =>
      stopped <- gets (fun w => propagationStopped (flags w)) ;;
      if stopped then ret tt
      else
        cbs <- gets (fun w => listeners_on t ty (listeners w)) ;;
        invoke_listeners cbs e ;;
        bubble rest ty e
  end.

Definition event_path (e : mouse_event) : list event_target :=
  if through_region e then [Region; Document; Window] else [Document; Window].

Definition dispatch (ty : event_type) (e : mouse_event) : M unit :=
  modify (set_flags no_flags) ;;
  bubble (event_path e) ty e.

(** ** The script *)

Definition alloc_session (x : session) : M nat :=
  fun w => (Normal (length (sessions w)), set_sessions (sessions w ++ [x]) w).

Definition dragging : M unit :=
  drag <- gets has_region ;;
  if drag then
    s <- alloc_session (mkSession false 0 0) ;;
    addEventListener Region Mousedown (DragDown s) ;;
    addEventListener Window Mousemove (DragMove s) ;;
    addEventListener Window Mouseup (DragUp s)
  else ret tt.

(** Loading the file: the two document listeners, then the bridge. *)
Definition script : M unit :=
  addEventListener Document Mousedown FallbackDown ;;
  addEventListener Document Mousedown FallbackDown ;;
  install_bridge.

(** Several calls of [invoke] in a row; a call that throws does not stop
    the next one (each is its own task).  The result lists what each call
    returned. *)
Fixpoint invoke_all (cs : list (string * jsval)) (w : world)
    : list (completion nat) * world :=
  match cs with
  | [] => ([], w)
  | (event, value) :: rest =>
      let '(r, w1) := invoke event value w in
      let '(rs, w2) := invoke_all rest w1 in
      (r :: rs, w2)
  end.

(** The identifiers taken so far, oldest first. *)
Definition ids (w : world) : list Z := map call_id (calls w).

(** ** Observations used by the statements *)

(** What [window.ipc.postMessage(message)] raises, if anything, and what
    reaches the host's [postMessage]. *)
Definition post_error (ipc : ipc_object) (message : jsval) : option jserror :=
  match ipc with
  | IpcMissing =>
      Some (TypeError "Cannot read properties of undefined (reading 'postMessage')")
  | IpcNoMethod => Some (TypeError "window.ipc.postMessage is not a function")
  | IpcHost post => post message
  end.

Definition posted (ipc : ipc_object) (message : jsval) : list jsval :=
  match ipc with
  | IpcHost _ => [message]
  | _ => []
  end.

(** The state of a promise whose executor ended with [r]. *)
Definition settled (r : option jserror) : pstate :=
  match r with
  | None => Pending
  | Some e => Rejected e
  end.

(** The value of [nextId] in a cell. *)
Definition next_id (cell : nat) (w : world) : Z :=
  default 1 (nextId_cells w !! cell).

Definition message_of (id : Z) (event : string) (value : jsval) : jsval :=
  JSON.stringify (envelope id event value) 2.

Definition call_message (c : call) : jsval :=
  message_of (call_id c) (call_event c) (call_value c).

Definition call_signal (c : call) : string * jsval :=
  (call_event c, call_value c).

(** The calls of the bridge made between two worlds. *)
Definition emitted (w w' : world) : list (string * jsval) :=
  map call_signal (drop (length (calls w)) (calls w')).

(** Everything that can happen on the page as far as this file goes. *)
Inductive action : Type :=
| LoadScript
| CallDragging
| Fire (ty : event_type) (e : mouse_event)
| CallInvoke (event : string) (value : jsval).

Definition perform (a : action) (w : world) : world :=
  match a with
  | LoadScript => exec script w
  | CallDragging => exec dragging w
  | Fire ty e => exec (dispatch ty e) w
  | CallInvoke event value => exec (invoke event value) w
  end.

Definition run (acts : list action) (w : world) : world :=
  fold_left (fun w a => perform a w) acts w.

(** The page once the file is loaded and [dragging] has run with the
    region element present. *)
Definition drag_page (ipc : ipc_object) : world :=
  exec dragging (exec script (fresh_page true ipc)).

(** The user's gestures on that page: a press of the primary button on
    the drag region (any click count, position and target marker) and a
    release anywhere. *)
Inductive gesture : Type :=
| Press (clicks x y : Z) (marker : option string)
| Release (e : mouse_event).

Definition press_event (clicks x y : Z) (marker : option string) : mouse_event :=
  mkMouse 0 clicks x y marker true.

Definition gesture_action (g : gesture) : action :=
  match g with
  | Press clicks x y marker => Fire Mousedown (press_event clicks x y marker)
  | Release e => Fire Mouseup e
  end.

(** [isDragging] of the session of [drag_page]. *)
Definition session_flag (w : world) : option bool :=
  isDragging <$> sessions w !! 0%nat.

(** After each gesture: the session flag and the bridge calls it caused. *)
Fixpoint observe (gs : list gesture) (w : world)
    : list (option bool * list (string * jsval)) :=
  match gs with
  | [] => []
  | g :: rest =>
      let w' := perform (gesture_action g) w in
      (session_flag w', emitted w w') :: observe rest w'
  end.

(** The press / release protocol in the specification's words: a press
    starts a session and signals [Move] / [true]; a release ends an active
    session and signals [Move] / [false]; a release without a session does
    nothing. *)
Fixpoint protocol (active : bool) (gs : list gesture)
    : list (option bool * list (string * jsval)) :=
  match gs with
  | [] => []
  | Press _ _ _ _ :: rest =>
      (Some true, [("Move", JBool true)]) :: protocol true rest
  | Release _ :: rest =>
      (Some false, if active then [("Move", JBool false)] else [])
        :: protocol false rest
  end.

(** [n] presses, each followed by its release. *)
Fixpoint press_release (ps : list (Z * Z * Z * option string * mouse_event))
    : list gesture :=
  match ps with
  | [] => []
  | (clicks, x, y, marker, up) :: rest =>
      Press clicks x y marker :: Release up :: press_release rest
  end.

(** The listeners registered by loading the file, and by [dragging] on
    top of them when [dragged]. *)
Definition page_listeners (dragged : bool) : list registration :=
  [mkReg Document Mousedown FallbackDown; mkReg Document Mousedown FallbackDown]
  ++ (if dragged
      then [mkReg Region Mousedown (DragDown 0); mkReg Window Mousemove (DragMove 0);
            mkReg Window Mouseup (DragUp 0)]
      else []).

(** The text of the first [Move] / [true] message. *)
Definition first_move_text : string := dq
"{
  'payload': {
    'id': 1,
    'event': {
      'type': 'Move',
      'value': true
    }
  }
}".

(** The identifiers that [n] successive calls take from a counter that
    stands at [c]. *)
Fixpoint ids_from (c : Z) (n : nat) : list Z :=
  match n with
  | O => []
  | S k => c :: ids_from (num_succ c) k
  end.

(** A world whose global [invoke] is the closure over an allocated cell. *)
Definition installed (cell : nat) (w : world) : Prop :=
  win_invoke w = Some cell /\ (cell < length (nextId_cells w))%nat.

(** The promise and the outbox entry that each logged call left behind,
    for a transport [ipc]. *)
Definition call_promise (ipc : ipc_object) (c : call) : pstate :=
  settled (post_error ipc (call_message c)).

Definition logged (w : world) : Prop :=
  promises w = map (call_promise (win_ipc w)) (calls w)
  /\ outbox w = flat_map (fun c => posted (win_ipc w) (call_message c)) (calls w).

(** The exception of [undefined.postMessage]. *)
Definition no_transport_error : jserror :=
  TypeError "Cannot read properties of undefined (reading 'postMessage')".

(** A computation keeps a relation between the world it starts in and the
    world it leaves. *)
Definition keeps (R : world -> world -> Prop) {A} (c : M A) : Prop :=
  forall w, R w (exec c w).

(** Promises, once allocated, keep their place and their state. *)
Definition promises_kept (w w' : world) : Prop :=
  promises w `prefix_of` promises w'.

(** The set-up page between gestures: the five listeners, the installed
    bridge, and the session cell with its flag. *)
Definition drag_ready (active : bool) (w : world) : Prop :=
  listeners w = page_listeners true
  /\ (exists cell, win_invoke w = Some cell)
  /\ (exists x, sessions w !! 0%nat = Some x /\ isDragging x = active).

(** The counter agrees with the log: either the bridge is not installed
    and nothing was called, or the one installation owns cell 0 and the
    identifiers taken so far, followed by those the counter will give, are
    the identifiers a fresh counter gives. *)
Definition counter_sound (w : world) : Prop :=
  match win_invoke w with
  | None => win_API_INVOKE w = None /\ calls w = [] /\ nextId_cells w = []
  | Some cell =>
      cell = 0%nat /\ win_API_INVOKE w = Some 0%nat
      /\ exists c, nextId_cells w = [c]
           /\ forall k, ids w ++ ids_from c k = ids_from 1 (length (calls w) + k)
  end.

(** A host whose [postMessage] always returns. *)
Definition accepting_host : ipc_object := IpcHost (fun _ => None).

(** ** Further observations *)

(** A [mousedown] the document's listener acts on: the target bears the
    marker and the click count is 1 or 2. *)
Definition qualifies (e : mouse_event) : Prop :=
  target_marker e <> None /\ (detail e = 1 \/ detail e = 2).

(** The event is not stopped by the region's listener before it reaches
    the document. *)
Definition reaches_document (dragged : bool) (e : mouse_event) : Prop :=
  through_region e = true -> dragged = true -> button e <> 0.

(** What may happen on a page without calling the bridge directly or
    loading the file again: [dragging], releases, moves, and presses the
    document's listener does not act on. *)
Definition silent (a : action) : Prop :=
  match a with
  | CallDragging => True
  | Fire Mousedown e => ~ qualifies e
  | Fire _ _ => True
  | _ => False
  end.



(** The session cell as the source writes it: a press sets the flag and
    takes the pointer's coordinates; a release clears the flag only when it
    is set, and never touches the coordinates. *)
Fixpoint session_after (s : session) (gs : list gesture) : session :=
  match gs with
  | [] => s
  | Press _ x y _ :: rest => session_after (mkSession true x y) rest
  | Release _ :: rest =>
      session_after (mkSession false (startX s) (startY s)) rest
  end.

(** A call [window.__API__INVOKE(event, value)] through the property the
    installation sets first. *)
Definition API_INVOKE (event : string) (value : jsval) : M nat :=
  fun w =>
    match win_API_INVOKE w with
    | Some cell => invoke_fn cell event value w
    | None => (Throw (TypeError "window.__API__INVOKE is not a function"), w)
    end.

(** Calls in a row, each through [window.__API__INVOKE] ([true]) or
    through [invoke] ([false]). *)
Fixpoint call_all (cs : list (bool * (string * jsval))) (w : world) : world :=
  match cs with
  | [] => w
  | (true, (event, value)) :: rest => call_all rest (exec (API_INVOKE event value) w)
  | (false, (event, value)) :: rest => call_all rest (exec (invoke event value) w)
  end.


(** The three listeners that one run of [dragging] registers for its
    session cell [s]. *)
Definition drag_listeners (s : nat) : list registration :=
  [mkReg Region Mousedown (DragDown s); mkReg Window Mousemove (DragMove s);
   mkReg Window Mouseup (DragUp s)].

(** [isDragging = false] on a session. *)
Definition ended (x : session) : session :=
  mkSession false (startX x) (startY x).

(** The envelope without any white space, for an identifier, an event
    name and the text of the value. *)
Definition compact_envelope (id : Z) (event value_text : string) : string :=
  dq "{'payload':{'id':" +:+ pretty id
  +:+ dq ",'event':{'type':" +:+ JSON.quote event
  +:+ dq ",'value':" +:+ value_text +:+ "}}}".

Definition bool_text (b : bool) : string := if b then "true" else "false".

(** The same envelope as [JSON.stringify] lays it out with two blanks of
    indentation. *)
Definition indented_envelope (id : Z) (event value_text : string) : string :=
  dq "{
  'payload': {
    'id': " +:+ pretty id +:+ dq ",
    'event': {
      'type': " +:+ JSON.quote event +:+ dq ",
      'value': " +:+ value_text +:+ "
    }
  }
}".

(** * Properties *)

Example stringify_nested :
  JSON.stringify
    (JObj [("a", JArr [JNum 1; JUndefined; JStr "x\y"]); ("b", JUndefined);
           ("c", JObj []); ("d", JNum (-12))]) 0
  = JStr (dq "{'a':[1,null,'x\\y'],'c':{},'d':-12}").
Proof. reflexivity. Qed.

Example first_move_compact :
  JSON.stringify (envelope 1 "Move" (JBool true)) 0
  = JStr (dq "{'payload':{'id':1,'event':{'type':'Move','value':true}}}").
Proof. reflexivity. Qed.

Example num_succ_exact : num_succ 41 = 42.
Proof. reflexivity. Qed.

Example num_succ_sticks : num_succ MAX_EXACT = MAX_EXACT.
Proof. reflexivity. Qed.

(** ** Tactics *)

(** Reading and writing the fields of an explicit world. *)
Ltac simpl_world :=
  cbv beta iota zeta delta
    [nextId_cells promises sessions win_API_INVOKE win_invoke win_ipc outbox
     calls has_region listeners flags reported
     set_nextId_cells set_promises set_sessions set_win_API_INVOKE
     set_win_invoke set_outbox set_calls set_listeners set_flags set_reported
     defaultPrevented propagationStopped immediateStopped no_flags
     isDragging startX startY next_id fst snd].

(** The same, and the steps of a dispatch up to the calls of the
    listeners. *)
Ltac run_dom :=
  cbv beta iota zeta delta
    [bind gets modify ret report exec outcome dispatch bubble invoke_listeners
     event_path run_callback listeners_on target_eqb type_eqb andb negb
     reg_target reg_type reg_callback
     nextId_cells promises sessions win_API_INVOKE win_invoke win_ipc outbox
     calls has_region listeners flags reported
     set_nextId_cells set_promises set_sessions set_win_API_INVOKE
     set_win_invoke set_outbox set_calls set_listeners set_flags set_reported
     defaultPrevented propagationStopped immediateStopped no_flags
     isDragging startX startY next_id fst snd].

(** ** The bridge function, as one equation *)

Lemma invoke_fn_eq cell event value w :
  let id := next_id cell w in
  let m := message_of id event value in
  invoke_fn cell event value w =
  (Normal (length (promises w)),
   set_promises (promises w ++ [settled (post_error (win_ipc w) m)])
     (set_outbox (outbox w ++ posted (win_ipc w) m)
        (set_calls (calls w ++ [mkCall id event value])
           (set_nextId_cells (<[cell := num_succ id]> (nextId_cells w)) w)))).
Proof.
  destruct w as [cells proms sess api inv ipc out cl reg ls fl rep].
  unfold invoke_fn, new_promise, next_id, message_of, bind, take_id, modify,
    ipc_postMessage, exec, settle.
  destruct ipc as [| |post]; cbn -[JSON.stringify envelope num_succ].
  - rewrite list_lookup_middle by done. rewrite insert_app_r_alt by done.
    rewrite Nat.sub_diag, app_nil_r. reflexivity.
  - rewrite list_lookup_middle by done. rewrite insert_app_r_alt by done.
    rewrite Nat.sub_diag, app_nil_r. reflexivity.
  - destruct (post _) as [e|]; cbn -[JSON.stringify envelope num_succ].
    + rewrite list_lookup_middle by done. rewrite insert_app_r_alt by done.
      rewrite Nat.sub_diag. reflexivity.
    + reflexivity.
Qed.

Lemma invoke_installed w cell event value :
  win_invoke w = Some cell ->
  invoke event value w = invoke_fn cell event value w.
Proof. unfold invoke. intros ->. reflexivity. Qed.

Lemma script_fresh region ipc :
  exec script (fresh_page region ipc) =
  mkWorld [1] [] [] (Some 0%nat) (Some 0%nat) ipc [] [] region
    (page_listeners false) no_flags [].
Proof. reflexivity. Qed.

Lemma post_outcome message w :
  outcome (ipc_postMessage message) w
  = match post_error (win_ipc w) message with
    | None => Normal tt
    | Some e => Throw e
    end.
Proof.
  unfold outcome, ipc_postMessage, post_error.
  destruct (win_ipc w) as [| |post]; try reflexivity.
  destruct (post message); reflexivity.
Qed.

Lemma post_raises message w e :
  outcome (ipc_postMessage message) w = Throw e ->
  post_error (win_ipc w) message = Some e.
Proof.
  rewrite post_outcome. destruct (post_error _ _); congruence.
Qed.

Lemma post_returns message w :
  outcome (ipc_postMessage message) w = Normal tt ->
  post_error (win_ipc w) message = None.
Proof.
  rewrite post_outcome. destruct (post_error _ _); congruence.
Qed.

(** ** Request identifiers *)

Lemma invoke_step cell event value w :
  installed cell w ->
  let w' := exec (invoke event value) w in
  installed cell w'
  /\ next_id cell w' = num_succ (next_id cell w)
  /\ calls w' = calls w ++ [mkCall (next_id cell w) event value]
  /\ outbox w' =
       outbox w ++ posted (win_ipc w) (message_of (next_id cell w) event value)
  /\ win_ipc w' = win_ipc w.
Proof.
  intros [Hinv Hlt]. unfold exec. rewrite (invoke_installed _ _ _ _ Hinv), invoke_fn_eq.
  destruct w as [cells proms sess api inv ipc out cl reg ls fl rep].
  cbn -[message_of num_succ] in *. unfold installed, next_id.
  cbn -[message_of num_succ]. rewrite length_insert.
  rewrite list_lookup_insert_eq by done. done.
Qed.

Lemma invoke_all_ids cell cs : forall w,
  installed cell w ->
  let w' := (invoke_all cs w).2 in
  installed cell w'
  /\ ids w' = ids w ++ ids_from (next_id cell w) (length cs)
  /\ win_ipc w' = win_ipc w.
Proof.
  induction cs as [|[event value] cs IH]; intros w Hw.
  - cbn. rewrite app_nil_r. done.
  - destruct (invoke_step cell event value w Hw) as (Hw1 & Hn & Hc & _ & Hi).
    specialize (IH _ Hw1). cbn [invoke_all].
    unfold exec in *. destruct (invoke event value w) as [r w1]. cbn [snd] in *.
    destruct (invoke_all cs w1) as [rs w2]. cbn [snd length ids_from] in *.
    destruct IH as (? & -> & ->). split; [done|]. split; [|done].
    unfold ids in *. rewrite Hc, map_app, Hn, <- app_assoc. reflexivity.
Qed.

Lemma ids_from_exact n : forall c,
  c + Z.of_nat n <= MAX_EXACT + 1 ->
  ids_from c n = seqZ c (Z.of_nat n).
Proof.
  induction n as [|n IH]; intros c Hc; [reflexivity|].
  cbn [ids_from]. rewrite seqZ_cons by lia.
  replace (Z.pred (Z.of_nat (S n))) with (Z.of_nat n) by lia.
  unfold num_succ. destruct (Z.ltb_spec c MAX_EXACT).
  - rewrite IH by lia. reflexivity.
  - assert (n = 0%nat) as -> by lia. reflexivity.
Qed.

Lemma ids_from_lookup n : forall c i,
  c <= MAX_EXACT -> (i < n)%nat ->
  ids_from c n !! i = Some (Z.min MAX_EXACT (c + Z.of_nat i)).
Proof.
  induction n as [|n IH]; intros c i Hc Hi; [lia|].
  destruct i as [|i]; cbn [ids_from lookup list_lookup].
  - f_equal. lia.
  - rewrite IH; [|unfold num_succ; destruct (Z.ltb_spec c MAX_EXACT); lia|lia].
    f_equal. unfold num_succ. destruct (Z.ltb_spec c MAX_EXACT); lia.
Qed.

Lemma ids_after_calls region ipc cs :
  ids (invoke_all cs (exec script (fresh_page region ipc))).2
  = ids_from 1 (length cs).
Proof.
  assert (installed 0 (exec script (fresh_page region ipc))) as Hw.
  { rewrite script_fresh. split; [reflexivity | cbn; lia]. }
  destruct (invoke_all_ids 0 cs _ Hw) as (_ & -> & _).
  rewrite script_fresh. reflexivity.
Qed.

(** ** What each call leaves behind *)

Lemma invoke_eq cell event value w :
  installed cell w ->
  let id := next_id cell w in
  let m := message_of id event value in
  invoke event value w =
  (Normal (length (promises w)),
   set_promises (promises w ++ [settled (post_error (win_ipc w) m)])
     (set_outbox (outbox w ++ posted (win_ipc w) m)
        (set_calls (calls w ++ [mkCall id event value])
           (set_nextId_cells (<[cell := num_succ id]> (nextId_cells w)) w)))).
Proof. intros [Hinv _]. rewrite (invoke_installed _ _ _ _ Hinv). apply invoke_fn_eq. Qed.

Lemma invoke_logged cell event value w :
  installed cell w -> logged w -> logged (exec (invoke event value) w).
Proof.
  intros Hw [Hp Ho]. unfold exec. rewrite (invoke_eq _ _ _ _ Hw).
  destruct w as [cells proms sess api inv ipc out cl reg ls fl rep].
  unfold logged in *. cbn -[message_of num_succ] in *. subst proms out.
  rewrite map_app, flat_map_app. cbn -[message_of]. rewrite app_nil_r. done.
Qed.

Lemma invoke_all_logged cell cs : forall w,
  installed cell w -> logged w ->
  let w' := (invoke_all cs w).2 in
  logged w' /\ map call_signal (calls w') = map call_signal (calls w) ++ cs.
Proof.
  induction cs as [|[event value] cs IH]; intros w Hw Hl.
  - cbn. rewrite app_nil_r. done.
  - destruct (invoke_step cell event value w Hw) as (Hw1 & _ & Hc & _).
    pose proof (invoke_logged _ event value _ Hw Hl) as Hl1.
    specialize (IH _ Hw1 Hl1). cbn [invoke_all].
    unfold exec in *. destruct (invoke event value w) as [r w1]. cbn [snd] in *.
    destruct (invoke_all cs w1) as [rs w2]. cbn [snd] in *.
    destruct IH as [? ->]. split; [done|].
    rewrite Hc, map_app, <- app_assoc. reflexivity.
Qed.

Lemma calls_after_script region ipc cs :
  let w := (invoke_all cs (exec script (fresh_page region ipc))).2 in
  logged w /\ map call_signal (calls w) = cs /\ win_ipc w = ipc.
Proof.
  assert (installed 0 (exec script (fresh_page region ipc))) as Hw.
  { rewrite script_fresh. split; [reflexivity | cbn; lia]. }
  assert (logged (exec script (fresh_page region ipc))) as Hl.
  { rewrite script_fresh. split; reflexivity. }
  destruct (invoke_all_logged 0 cs _ Hw Hl) as [H1 H2].
  destruct (invoke_all_ids 0 cs _ Hw) as (_ & _ & H3).
  cbn zeta. rewrite H3, script_fresh in *. done.
Qed.

Lemma posted_host post (l : list call) :
  flat_map (fun c => posted (IpcHost post) (call_message c)) l
  = map call_message l.
Proof.
  induction l as [|c l IH]; [reflexivity|].
  change (call_message c
            :: flat_map (fun c => posted (IpcHost post) (call_message c)) l
          = call_message c :: map call_message l).
  rewrite IH. reflexivity.
Qed.

(** C2.  On a freshly loaded page with a host transport, the first call
    [invoke("Move", true)] hands the host exactly one message, the text of
    the envelope with identifier 1 indented by two blanks; without its
    white space that text is the compact envelope, which is also what
    [JSON.stringify] gives without indentation.  Every call posts exactly
    one message: after any calls the outbox holds one message per call, the
    serialised envelope of that call, in order. *)
Theorem first_move_message region post :
  let w0 := exec script (fresh_page region (IpcHost post)) in
  let compact := dq "{'payload':{'id':1,'event':{'type':'Move','value':true}}}" in
  outbox (exec (invoke "Move" (JBool true)) w0) = [JStr first_move_text]
  /\ JSON.strip_ws false false first_move_text = compact
  /\ JSON.stringify (envelope 1 "Move" (JBool true)) 0 = JStr compact
  /\ (forall cs,
        let w := (invoke_all cs w0).2 in
        outbox w = map call_message (calls w)
        /\ length (outbox w) = length cs).
Proof.
  intros w0 compact. split; [|split; [|split]].
  - subst w0. rewrite script_fresh. unfold exec.
    rewrite (invoke_eq 0) by (split; [reflexivity | cbn; lia]).
    reflexivity.
  - reflexivity.
  - reflexivity.
  - intros cs w.
    destruct (calls_after_script region (IpcHost post) cs) as ([_ Ho] & Hc & Hi).
    fold w0 in Ho, Hc, Hi. fold w in Ho, Hc, Hi.
    assert (outbox w = map call_message (calls w)) as Hout.
    { rewrite Ho, Hi. apply posted_host. }
    split; [exact Hout|].
    rewrite Hout, length_map, <- (length_map call_signal), Hc. reflexivity.
Qed.

(** ** Installing twice *)

Lemma invoke_keeps_API event value w :
  win_API_INVOKE (exec (invoke event value) w) = win_API_INVOKE w.
Proof.
  unfold exec, invoke. destruct (win_invoke w) as [cell|]; [|reflexivity].
  rewrite invoke_fn_eq. destruct w; reflexivity.
Qed.

Lemma invoke_all_keeps_API cs : forall w,
  win_API_INVOKE (invoke_all cs w).2 = win_API_INVOKE w.
Proof.
  induction cs as [|[event value] cs IH]; intros w; [reflexivity|].
  cbn [invoke_all]. pose proof (invoke_keeps_API event value w) as H.
  unfold exec in H. destruct (invoke event value w) as [r w1].
  specialize (IH w1). destruct (invoke_all cs w1) as [rs w2].
  cbn [snd] in *. congruence.
Qed.

Lemma install_bridge_present w :
  win_API_INVOKE w <> None -> install_bridge w = (Normal tt, w).
Proof. unfold install_bridge. destruct (win_API_INVOKE w); done. Qed.

Lemma install_bridge_installs w :
  win_API_INVOKE (exec install_bridge w) <> None.
Proof.
  unfold exec, install_bridge. destruct (win_API_INVOKE w) eqn:E; cbn; congruence.
Qed.

Lemma invoke_all_app cs1 cs2 : forall w,
  (invoke_all (cs1 ++ cs2) w).2 = (invoke_all cs2 (invoke_all cs1 w).2).2.
Proof.
  induction cs1 as [|[event value] cs1 IH]; intros w; [reflexivity|].
  cbn [invoke_all app]. destruct (invoke event value w) as [r w1].
  specialize (IH w1). destruct (invoke_all (cs1 ++ cs2) w1) as [rs w2].
  destruct (invoke_all cs1 w1) as [rs' w2']. cbn [snd] in *. exact IH.
Qed.

(** C6.  A second installation changes nothing: run right after the first,
    or after any calls, [install_bridge] returns with the world as it was
    (same function in both window properties, same counter); so calls made
    after a second installation on a loaded page go on exactly as they
    would have without it, identifiers included. *)
Theorem second_install_noop :
  (forall w, install_bridge (exec install_bridge w) = (Normal tt, exec install_bridge w))
  /\ (forall w cs,
        let w' := (invoke_all cs (exec install_bridge w)).2 in
        install_bridge w' = (Normal tt, w'))
  /\ (forall region ipc cs1 cs2,
        let w1 := (invoke_all cs1 (exec script (fresh_page region ipc))).2 in
        let w2 := (invoke_all cs2 (exec install_bridge w1)).2 in
        w2 = (invoke_all (cs1 ++ cs2) (exec script (fresh_page region ipc))).2
        /\ ids w2 = ids_from 1 (length (cs1 ++ cs2))).
Proof.
  split; [|split].
  - intros w. apply install_bridge_present, install_bridge_installs.
  - intros w cs w'. apply install_bridge_present. subst w'.
    rewrite invoke_all_keeps_API. apply install_bridge_installs.
  - intros region ipc cs1 cs2 w1 w2.
    assert (exec install_bridge w1 = w1) as Hsame.
    { unfold exec. rewrite install_bridge_present; [reflexivity|].
      subst w1. rewrite invoke_all_keeps_API, script_fresh. done. }
    assert (w2 = (invoke_all (cs1 ++ cs2) (exec script (fresh_page region ipc))).2) as ->.
    { subst w2. rewrite Hsame, invoke_all_app. reflexivity. }
    split; [reflexivity | apply ids_after_calls].
Qed.

(** ** A transport that raises *)

Lemma invoke_settles cell event value w :
  win_invoke w = Some cell ->
  let m := message_of (next_id cell w) event value in
  let p := length (promises w) in
  let w' := exec (invoke event value) w in
  outcome (invoke event value) w = Normal p
  /\ promises w' = promises w ++ [settled (post_error (win_ipc w) m)]
  /\ outbox w' = outbox w ++ posted (win_ipc w) m
  /\ calls w' = calls w ++ [mkCall (next_id cell w) event value]
  /\ reported w' = reported w
  /\ flags w' = flags w.
Proof.
  intros Hinv. unfold exec, outcome.
  rewrite (invoke_installed _ _ _ _ Hinv), invoke_fn_eq.
  destruct w; cbn -[message_of num_succ]. done.
Qed.

(** C7, as amended.  With [window.ipc] absent nothing is checked
    beforehand: the call takes its identifier, and the property access
    raises a TypeError inside the promise executor.  The promise
    constructor catches it: [invoke] returns normally, with a promise that
    is rejected with that very error; nothing reaches a host. *)
Theorem absent_transport_rejects w cell event value :
  win_invoke w = Some cell ->
  win_ipc w = IpcMissing ->
  let p := length (promises w) in
  let w' := exec (invoke event value) w in
  outcome (invoke event value) w = Normal p
  /\ promises w' !! p = Some (Rejected no_transport_error)
  /\ calls w' = calls w ++ [mkCall (next_id cell w) event value]
  /\ outbox w' = outbox w.
Proof.
  intros Hinv Hipc p w'.
  destruct (invoke_settles cell event value w Hinv) as (Ho & Hp & Hb & Hc & _).
  fold w' in Hp, Hb, Hc. rewrite Hipc in Hp, Hb. cbn [post_error settled posted] in Hp, Hb.
  split; [exact Ho|]. split; [|split; [exact Hc|]].
  - rewrite Hp. apply list_lookup_middle. reflexivity.
  - rewrite Hb. apply app_nil_r.
Qed.

Lemma absent_transport_rejects_witness :
  let w := exec script (fresh_page false IpcMissing) in
  outcome (invoke "Move" (JBool true)) w = Normal 0%nat
  /\ promises (exec (invoke "Move" (JBool true)) w) !! 0%nat
     = Some (Rejected no_transport_error).
Proof.
  intros w.
  pose proof (absent_transport_rejects w 0 "Move" (JBool true) eq_refl eq_refl) as H.
  split; [exact (proj1 H) | exact (proj1 (proj2 H))].
Defined.

(** C7, as stated, fails: on a loaded page without [window.ipc] the call
    does not end with an exception, it returns a promise. *)
Lemma absent_transport_does_not_throw :
  let w := exec script (fresh_page false IpcMissing) in
  outcome (invoke "Move" (JBool true)) w = Normal 0%nat
  /\ ~ (exists e, outcome (invoke "Move" (JBool true)) w = Throw e).
Proof.
  intros w. split; [reflexivity|]. intros [e He]. discriminate He.
Qed.

(** C10, as amended.  When the transport call of a call raises, the
    counter has already moved: if the identifier taken is below 2^53, the
    counter stands one higher after the failed call, and the next call
    takes that next identifier. *)
Theorem failed_call_keeps_id w cell event value e event' value' :
  installed cell w ->
  next_id cell w < MAX_EXACT ->
  outcome (ipc_postMessage (message_of (next_id cell w) event value)) w = Throw e ->
  let w1 := exec (invoke event value) w in
  let w2 := exec (invoke event' value') w1 in
  promises w1 !! length (promises w) = Some (Rejected e)
  /\ next_id cell w1 = next_id cell w + 1
  /\ calls w2 = calls w ++ [mkCall (next_id cell w) event value;
                            mkCall (next_id cell w + 1) event' value'].
Proof.
  intros Hw Hlt He%post_raises w1 w2.
  destruct (invoke_settles cell event value w (proj1 Hw)) as (_ & Hp & _).
  destruct (invoke_step cell event value w Hw) as (Hw1 & Hn & Hc & _).
  destruct (invoke_step cell event' value' _ Hw1) as (_ & _ & Hc2 & _).
  fold w1 in Hp, Hn, Hc, Hc2. fold w2 in Hc2.
  assert (num_succ (next_id cell w) = next_id cell w + 1) as Hs.
  { unfold num_succ. destruct (Z.ltb_spec (next_id cell w) MAX_EXACT); lia. }
  rewrite Hs in Hn. split; [|split; [exact Hn|]].
  - rewrite Hp, He. apply list_lookup_middle. reflexivity.
  - rewrite Hc2, Hc, Hn, <- app_assoc. reflexivity.
Qed.

Lemma failed_call_keeps_id_witness :
  let w := exec script (fresh_page false IpcMissing) in
  let w2 := exec (invoke "Move" (JBool false)) (exec (invoke "Move" (JBool true)) w) in
  calls w2 = [mkCall 1 "Move" (JBool true); mkCall 2 "Move" (JBool false)].
Proof.
  intros w w2.
  assert (installed 0 w) as Hw by (split; [reflexivity | cbn; lia]).
  assert (next_id 0 w < MAX_EXACT) as Hlt by reflexivity.
  exact (proj2 (proj2 (failed_call_keeps_id w 0 "Move" (JBool true)
                         no_transport_error "Move" (JBool false) Hw Hlt eq_refl))).
Defined.

Lemma absent_transport_all_rejected region cs i :
  (i < length cs)%nat ->
  promises (invoke_all cs (exec script (fresh_page region IpcMissing))).2 !! i
  = Some (Rejected no_transport_error).
Proof.
  intros Hi.
  destruct (calls_after_script region IpcMissing cs) as ([Hp _] & Hc & Hipc).
  rewrite Hp, Hipc, list_lookup_fmap.
  assert (i < length (calls (invoke_all cs (exec script (fresh_page region IpcMissing))).2))%nat
    as Hlen by (rewrite <- (length_map call_signal), Hc; exact Hi).
  destruct (lookup_lt_is_Some_2 _ _ Hlen) as [c ->]. reflexivity.
Qed.

(** C10, as stated, fails at the top of the exact range: on a loaded page
    without [window.ipc] every call fails; call number 2^53 takes the
    identifier 2^53, its promise is rejected, and the next call takes 2^53
    again. *)
Lemma failed_call_id_reused_at_2_53 :
  let cs := replicate (Z.to_nat (MAX_EXACT + 1)) ("Move", JBool true) in
  let w := (invoke_all cs (exec script (fresh_page false IpcMissing))).2 in
  promises w !! Z.to_nat (MAX_EXACT - 1) = Some (Rejected no_transport_error)
  /\ ids w !! Z.to_nat (MAX_EXACT - 1) = Some MAX_EXACT
  /\ ids w !! Z.to_nat MAX_EXACT = Some MAX_EXACT.
Proof.
  intros cs w.
  assert (forall i, MAX_EXACT - 1 <= i <= MAX_EXACT ->
            ids w !! Z.to_nat i = Some MAX_EXACT) as H.
  { intros i Hi. subst w cs. rewrite ids_after_calls, length_replicate.
    rewrite ids_from_lookup; [f_equal|..]; unfold MAX_EXACT in *; lia. }
  split; [|split; apply H; lia].
  subst w cs. apply absent_transport_all_rejected.
  rewrite length_replicate. unfold MAX_EXACT. lia.
Qed.

(** ** Frame rules

    A relation between worlds that is reflexive and transitive, that every
    write to the flags, the sessions, the listeners and the error reports
    respects, and that the two operations of the bridge respect, is
    respected by everything the file does. *)
Create HintDb keeps.

Section Frame.
Variable R : world -> world -> Prop.
Hypothesis R_refl : forall w, R w w.
Hypothesis R_trans : forall w1 w2 w3, R w1 w2 -> R w2 w3 -> R w1 w3.
Hypothesis R_flags : forall x w, R w (set_flags x w).
Hypothesis R_sessions : forall x w, R w (set_sessions x w).
Hypothesis R_listeners : forall x w, R w (set_listeners x w).
Hypothesis R_reported : forall x w, R w (set_reported x w).
Hypothesis R_invoke : forall event value w, R w (exec (invoke event value) w).
Hypothesis R_install : forall w, R w (exec install_bridge w).

Lemma keeps_ret {A} (a : A) : keeps R (ret a).
Proof. intros w. apply R_refl. Qed.

Lemma keeps_gets {A} (f : world -> A) : keeps R (gets f).
Proof. intros w. apply R_refl. Qed.

Lemma keeps_bind {A B} (c : M A) (k : A -> M B) :
  keeps R c -> (forall a, keeps R (k a)) -> keeps R (bind c k).
Proof.
  intros Hc Hk w. specialize (Hc w). unfold exec, bind in *.
  destruct (c w) as [[a|e] w1]; cbn [snd] in *; [|exact Hc].
  eapply R_trans; [exact Hc | apply Hk].
Qed.

Lemma keeps_write_session s f : keeps R (write_session s f).
Proof.
  intros w. unfold exec, write_session, modify. cbn [snd].
  destruct (sessions w !! s); [apply R_sessions | apply R_refl].
Qed.

Lemma keeps_preventDefault : keeps R preventDefault.
Proof. intros w. apply R_flags. Qed.

Lemma keeps_stopPropagation : keeps R stopPropagation.
Proof. intros w. apply R_flags. Qed.

Lemma keeps_stopImmediatePropagation : keeps R stopImmediatePropagation.
Proof. intros w. apply R_flags. Qed.

Lemma keeps_invoke event value : keeps R (invoke event value).
Proof. intros w. apply R_invoke. Qed.

Hint Resolve keeps_ret keeps_gets keeps_write_session keeps_preventDefault
  keeps_stopPropagation keeps_stopImmediatePropagation keeps_invoke : keeps.

Ltac keeps_steps :=
  repeat first
    [ apply keeps_bind; [|intros ?]
    | match goal with |- keeps _ (if ?b then _ else _) => destruct b end
    | solve [auto with keeps] ].

Lemma keeps_run_callback cb e : keeps R (run_callback cb e).
Proof.
  destruct cb; cbn [run_callback];
    unfold drag_mousedown, drag_mousemove, drag_mouseup, fallback_mousedown,
      assign_isDragging, assign_startX, assign_startY, read_session;
    keeps_steps.
Qed.

Lemma keeps_report c : keeps R c -> keeps R (report c).
Proof.
  intros Hc w. specialize (Hc w). unfold exec, report in *.
  destruct (c w) as [[a|e] w1]; cbn [snd] in *; [exact Hc|].
  eapply R_trans; [exact Hc | apply R_reported].
Qed.

Lemma keeps_invoke_listeners cbs e : keeps R (invoke_listeners cbs e).
Proof.
  induction cbs as [|cb cbs IH]; cbn [invoke_listeners]; [apply keeps_ret|].
  apply keeps_bind; [apply keeps_gets|]. intros [|]; [apply keeps_ret|].
  apply keeps_bind; [|intros _; exact IH].
  apply keeps_report, keeps_run_callback.
Qed.

Lemma keeps_bubble path ty e : keeps R (bubble path ty e).
Proof.
  induction path as [|t path IH]; cbn [bubble]; [apply keeps_ret|].
  apply keeps_bind; [apply keeps_gets|]. intros [|]; [apply keeps_ret|].
  apply keeps_bind; [apply keeps_gets|]. intros cbs.
  apply keeps_bind; [apply keeps_invoke_listeners | intros _; exact IH].
Qed.

Lemma keeps_dispatch ty e : keeps R (dispatch ty e).
Proof.
  unfold dispatch. apply keeps_bind; [|intros _; apply keeps_bubble].
  intros w. apply R_flags.
Qed.

Lemma keeps_addEventListener t ty cb : keeps R (addEventListener t ty cb).
Proof. intros w. apply R_listeners. Qed.

Lemma keeps_dragging : keeps R dragging.
Proof.
  unfold dragging. apply keeps_bind; [apply keeps_gets|]. intros [|]; [|apply keeps_ret].
  apply keeps_bind; [intros w; apply R_sessions|]. intros s.
  repeat (apply keeps_bind; [apply keeps_addEventListener | intros _]).
  apply keeps_addEventListener.
Qed.

Lemma keeps_script : keeps R script.
Proof.
  unfold script.
  repeat (apply keeps_bind; [apply keeps_addEventListener | intros _]).
  intros w. apply R_install.
Qed.

Lemma keeps_perform a w : R w (perform a w).
Proof.
  destruct a; cbn [perform].
  - apply keeps_script.
  - apply keeps_dragging.
  - apply keeps_dispatch.
  - apply R_invoke.
Qed.

Lemma keeps_run acts : forall w, R w (run acts w).
Proof.
  induction acts as [|a acts IH]; intros w; cbn; [apply R_refl|].
  eapply R_trans; [apply keeps_perform | apply IH].
Qed.
End Frame.

(** ** Identifiers over the life of the page *)

Lemma counter_sound_ids w :
  counter_sound w -> ids w = ids_from 1 (length (calls w)).
Proof.
  unfold counter_sound. destruct (win_invoke w) as [cell|].
  - intros (_ & _ & c & _ & H). specialize (H 0%nat).
    cbn [ids_from] in H. rewrite app_nil_r, Nat.add_0_r in H. exact H.
  - intros (_ & Hc & _). unfold ids. rewrite Hc. reflexivity.
Qed.

Lemma counter_sound_run acts region ipc :
  counter_sound (run acts (fresh_page region ipc)).
Proof.
  cut (counter_sound (fresh_page region ipc)
       -> counter_sound (run acts (fresh_page region ipc))).
  { intros H. apply H. cbn. done. }
  apply (keeps_run (fun w w' => counter_sound w -> counter_sound w')).
  - auto.
  - auto.
  - intros x w. destruct w; auto.
  - intros x w. destruct w; auto.
  - intros x w. destruct w; auto.
  - intros x w. destruct w; auto.
  - intros event value w. unfold exec, invoke.
    destruct (win_invoke w) as [cell|] eqn:Hinv; [|auto].
    unfold counter_sound at 1. rewrite Hinv.
    intros (-> & Hapi & c & Hcells & Hk). rewrite invoke_fn_eq. unfold counter_sound.
    destruct w as [cells proms sess api inv ipc0 out cl reg ls fl rep].
    cbn in Hinv, Hapi, Hcells, Hk. subst. simpl_world. unfold ids. simpl_world.
    split; [reflexivity|]. split; [reflexivity|].
    exists (num_succ c). split; [reflexivity|]. intros k.
    rewrite map_app, length_app, <- app_assoc. cbn [map call_id length app].
    specialize (Hk (S k)). cbn [ids_from] in Hk. unfold ids in Hk. cbn in Hk.
    change (default 1 ([c] !! 0%nat)) with c. rewrite Hk. f_equal. lia.
  - intros w Hs. unfold exec, install_bridge.
    destruct (win_API_INVOKE w) as [cell|] eqn:Hapi; [exact Hs|].
    unfold counter_sound in Hs. destruct (win_invoke w) as [cell'|] eqn:Hinv.
    + destruct Hs as (_ & H & _). congruence.
    + destruct Hs as (_ & Hc & Hn).
      destruct w as [cells proms sess api inv ipc0 out cl reg ls fl rep].
      cbn in Hapi, Hinv, Hc, Hn. subst. cbn.
      split; [reflexivity|]. split; [reflexivity|]. exists 1. split; reflexivity.
Qed.

(** C1, as amended.  On a freshly loaded page, whatever the transport and
    whatever the event names and values, up to 2^53 calls of [invoke] take
    the identifiers 1, 2, ..., N in this order: they start at 1, grow by one
    per call, are pairwise distinct and strictly increasing.  The counter
    is never reset: the same holds of all the calls made in any course of
    events on a page (loading the file, once or again, [dragging], mouse
    events, direct calls), as long as they number at most 2^53. *)
Theorem request_ids_sequential region ipc :
  (forall cs,
     Z.of_nat (length cs) <= MAX_EXACT ->
     let w := (invoke_all cs (exec script (fresh_page region ipc))).2 in
     ids w = seqZ 1 (Z.of_nat (length cs))
     /\ NoDup (ids w)
     /\ (forall i j a b, (i < j)%nat ->
           ids w !! i = Some a -> ids w !! j = Some b -> a < b))
  /\ (forall acts,
       let w := run acts (fresh_page region ipc) in
       Z.of_nat (length (calls w)) <= MAX_EXACT ->
       ids w = seqZ 1 (Z.of_nat (length (calls w))) /\ NoDup (ids w)).
Proof.
  split.
  - intros cs Hn w. subst w. rewrite ids_after_calls, ids_from_exact by lia.
    split; [reflexivity|]. split; [apply NoDup_seqZ|].
    intros i j a b Hij [-> _]%lookup_seqZ [-> _]%lookup_seqZ. lia.
  - intros acts w Hn. subst w.
    rewrite (counter_sound_ids _ (counter_sound_run acts region ipc)).
    rewrite ids_from_exact by lia. split; [reflexivity | apply NoDup_seqZ].
Qed.

Lemma request_ids_sequential_witness :
  let cs := [("Move", JBool true); ("Resize", JNum 3); ("Move", JBool false)] in
  let w := (invoke_all cs (exec script (fresh_page false accepting_host))).2 in
  let acts := [LoadScript; CallDragging; Fire Mousedown (press_event 1 10 20 None);
               LoadScript; CallInvoke "Resize" (JNum 3);
               Fire Mouseup (press_event 1 30 40 None)] in
  ids w = [1; 2; 3]
  /\ ids (run acts (fresh_page true accepting_host)) = [1; 2; 3].
Proof.
  intros cs w acts.
  assert (Z.of_nat (length cs) <= MAX_EXACT) as Hn by (vm_compute; discriminate).
  assert (Z.of_nat (length (calls (run acts (fresh_page true accepting_host))))
          <= MAX_EXACT) as Hm by (vm_compute; discriminate).
  split.
  - exact (proj1 (proj1 (request_ids_sequential false accepting_host) cs Hn)).
  - exact (proj1 (proj2 (request_ids_sequential true accepting_host) acts Hm)).
Defined.

(** C1, as stated, fails: of 2^53 + 1 calls on a freshly loaded page, the
    last two both take the identifier 2^53, because [nextId++] no longer
    changes a Number that has reached 2^53. *)
Lemma request_id_reused_at_2_53 :
  let cs := replicate (Z.to_nat (MAX_EXACT + 1)) ("Move", JBool true) in
  let w := (invoke_all cs (exec script (fresh_page false accepting_host))).2 in
  ids w !! Z.to_nat (MAX_EXACT - 1) = Some MAX_EXACT
  /\ ids w !! Z.to_nat MAX_EXACT = Some MAX_EXACT
  /\ ~ NoDup (ids w).
Proof.
  intros cs w.
  assert (forall i, MAX_EXACT - 1 <= i <= MAX_EXACT ->
            ids w !! Z.to_nat i = Some MAX_EXACT) as H.
  { intros i Hi. subst w cs. rewrite ids_after_calls, length_replicate.
    rewrite ids_from_lookup; [f_equal|..]; unfold MAX_EXACT in *; lia. }
  pose proof (H (MAX_EXACT - 1) ltac:(lia)) as H1.
  pose proof (H MAX_EXACT ltac:(lia)) as H2.
  split; [exact H1|]. split; [exact H2|].
  intros Hnd. pose proof (NoDup_lookup _ _ _ _ Hnd H1 H2) as Heq.
  unfold MAX_EXACT in Heq. lia.
Qed.

(** ** Settlement of the returned promise *)

Lemma promises_kept_run acts w : promises_kept w (run acts w).
Proof.
  apply keeps_run; unfold promises_kept.
  - intros w0. reflexivity.
  - intros w1 w2 w3 H12 H23. etrans; eassumption.
  - intros x w0. destruct w0; reflexivity.
  - intros x w0. destruct w0; reflexivity.
  - intros x w0. destruct w0; reflexivity.
  - intros x w0. destruct w0; reflexivity.
  - intros event value w0. unfold exec, invoke.
    destruct (win_invoke w0) as [cell|]; [|reflexivity].
    rewrite invoke_fn_eq. destruct w0; cbn. apply prefix_app_r. reflexivity.
  - intros w0. unfold exec, install_bridge.
    destruct (win_API_INVOKE w0); destruct w0; reflexivity.
Qed.

(** C3, as amended.  The executor never calls its [resolve] or [reject].
    A call whose transport call returns leaves its promise pending, and
    nothing the file does afterwards settles it.  A call whose transport
    call raises has its promise rejected with that error by the promise
    constructor, and it stays so. *)
Theorem promise_settlement w cell event value :
  win_invoke w = Some cell ->
  let m := message_of (next_id cell w) event value in
  let p := length (promises w) in
  let w' := exec (invoke event value) w in
  outcome (invoke event value) w = Normal p
  /\ (outcome (ipc_postMessage m) w = Normal tt ->
      forall later, promises (run later w') !! p = Some Pending)
  /\ (forall e, outcome (ipc_postMessage m) w = Throw e ->
      forall later, promises (run later w') !! p = Some (Rejected e)).
Proof.
  intros Hinv m p w'.
  destruct (invoke_settles cell event value w Hinv) as (Ho & Hp & _).
  fold m w' in Hp.
  assert (forall later, promises (run later w') !! p
                        = Some (settled (post_error (win_ipc w) m))) as H.
  { intros later. eapply prefix_lookup_Some; [|apply promises_kept_run].
    rewrite Hp. apply list_lookup_middle. reflexivity. }
  split; [exact Ho|]. split.
  - intros Hnone%post_returns later. rewrite H, Hnone. reflexivity.
  - intros e He%post_raises later. rewrite H, He. reflexivity.
Qed.

Lemma promise_settlement_witness :
  let w := exec script (fresh_page true accepting_host) in
  let later := [CallDragging; Fire Mousedown (press_event 1 10 20 None);
                Fire Mouseup (press_event 1 30 40 None); LoadScript] in
  promises (run later (exec (invoke "Move" (JBool true)) w)) !! 0%nat
  = Some Pending.
Proof.
  intros w later.
  exact (proj1 (proj2 (promise_settlement w 0 "Move" (JBool true) eq_refl))
           eq_refl later).
Defined.

(** C3, as stated, fails: on a loaded page without [window.ipc] the
    promise that [invoke] returns is rejected, so a caller awaiting it is
    resumed with the error. *)
Lemma promise_rejected_without_transport :
  let w := exec script (fresh_page false IpcMissing) in
  outcome (invoke "Move" (JBool true)) w = Normal 0%nat
  /\ promises (exec (invoke "Move" (JBool true)) w) !! 0%nat
     = Some (Rejected no_transport_error)
  /\ promises (exec (invoke "Move" (JBool true)) w) !! 0%nat <> Some Pending.
Proof.
  intros w. split; [reflexivity|]. split; [reflexivity | discriminate].
Qed.

(** ** The listeners, one at a time *)

Lemma drag_mousedown_skip s e w :
  button e <> 0 -> drag_mousedown s e w = (Normal tt, w).
Proof.
  intros Hb. unfold drag_mousedown.
  destruct (Z.eqb_spec (button e) 0) as [H0|_]; [contradiction | reflexivity].
Qed.

Lemma drag_mousedown_fires cell s x e w :
  win_invoke w = Some cell ->
  sessions w !! s = Some x ->
  button e = 0 ->
  drag_mousedown s e w =
  (Normal tt,
   set_flags (mkFlags true true (immediateStopped (flags w)))
     (exec (invoke_fn cell "Move" (JBool true))
        (set_sessions (<[s := mkSession true (clientX e) (clientY e)]> (sessions w)) w))).
Proof.
  intros Hinv Hs Hb. unfold drag_mousedown. rewrite Hb. cbn [Z.eqb negb].
  assert (s < length (sessions w))%nat as Hlt by (eapply lookup_lt_Some; exact Hs).
  destruct w as [cells proms sess api inv ipc out cl reg ls fl rep].
  cbn in Hinv, Hs, Hlt. subst inv.
  unfold bind, assign_isDragging, assign_startX, assign_startY, write_session,
    modify, preventDefault, stopPropagation, exec.
  cbn [sessions set_sessions]. rewrite Hs.
  cbn [sessions set_sessions isDragging startX startY].
  rewrite list_lookup_insert_eq by done.
  cbn [sessions set_sessions isDragging startX startY].
  rewrite list_insert_insert_eq, list_lookup_insert_eq by done.
  cbn [sessions set_sessions isDragging startX startY].
  rewrite list_insert_insert_eq.
  unfold invoke. simpl_world. rewrite invoke_fn_eq. reflexivity.
Qed.

Lemma drag_mousemove_skip s e w : drag_mousemove s e w = (Normal tt, w).
Proof.
  unfold drag_mousemove, bind, read_session, gets. cbn [fst snd].
  destruct (isDragging (default (mkSession false 0 0) (sessions w !! s))); reflexivity.
Qed.

Lemma drag_mouseup_idle s w :
  isDragging (default (mkSession false 0 0) (sessions w !! s)) = false ->
  drag_mouseup s w = (Normal tt, w).
Proof.
  intros H. unfold drag_mouseup, bind, read_session, gets. rewrite H. reflexivity.
Qed.

Lemma drag_mouseup_fires cell s x w :
  win_invoke w = Some cell ->
  sessions w !! s = Some x ->
  isDragging x = true ->
  drag_mouseup s w =
  (Normal tt,
   exec (invoke_fn cell "Move" (JBool false))
     (set_sessions (<[s := mkSession false (startX x) (startY x)]> (sessions w)) w)).
Proof.
  intros Hinv Hs Hd. unfold drag_mouseup, bind, read_session, gets.
  rewrite Hs. cbn [from_option id]. rewrite Hd. cbn [negb].
  destruct w as [cells proms sess api inv ipc out cl reg ls fl rep].
  cbn in Hinv, Hs. subst inv.
  unfold assign_isDragging, write_session, modify, exec, ret.
  cbn [sessions set_sessions]. rewrite Hs.
  unfold invoke. simpl_world. rewrite invoke_fn_eq. reflexivity.
Qed.

Lemma fallback_mousedown_skip e w :
  target_marker e = None \/ (detail e <> 1 /\ detail e <> 2) ->
  fallback_mousedown e w = (Normal tt, w).
Proof.
  intros H. unfold fallback_mousedown.
  destruct H as [-> | [H1 H2]]; [reflexivity|].
  destruct (Z.eqb_spec (detail e) 1); [contradiction|].
  destruct (Z.eqb_spec (detail e) 2); [contradiction|].
  rewrite andb_false_r. reflexivity.
Qed.

Lemma fallback_mousedown_fires cell e w :
  win_invoke w = Some cell ->
  target_marker e <> None ->
  detail e = 1 \/ detail e = 2 ->
  fallback_mousedown e w =
  (Normal tt,
   exec (invoke_fn cell "Move" (JBool true))
     (set_flags (mkFlags true true true) w)).
Proof.
  intros Hinv Ha Hd. unfold fallback_mousedown.
  rewrite (bool_decide_eq_true_2 _ Ha).
  assert (((detail e =? 1)%Z || (detail e =? 2)%Z) = true) as ->
    by (destruct Hd as [-> | ->]; reflexivity).
  cbn [andb].
  destruct w as [cells proms sess api inv ipc out cl reg ls fl rep].
  cbn in Hinv. subst inv.
  unfold bind, preventDefault, stopImmediatePropagation, modify, exec, invoke, ret.
  simpl_world. rewrite invoke_fn_eq. reflexivity.
Qed.

(** C8.  The region's [mousedown] listener returns at once on a press
    with another button than the primary one: the world is left as it
    was, so no call of the bridge is made, the session's flag and start
    coordinates are unchanged, and a flag that was false is still false. *)
Theorem nonprimary_press_ignored s e w :
  button e <> 0 ->
  let w' := exec (drag_mousedown s e) w in
  outcome (drag_mousedown s e) w = Normal tt
  /\ w' = w
  /\ emitted w w' = []
  /\ sessions w' !! s = sessions w !! s
  /\ (isDragging <$> sessions w !! s = Some false ->
      isDragging <$> sessions w' !! s = Some false).
Proof.
  intros Hb w'. subst w'. unfold exec, outcome, emitted.
  rewrite (drag_mousedown_skip s e w Hb). cbn [fst snd].
  rewrite drop_all. done.
Qed.

Lemma nonprimary_press_ignored_witness :
  let e := mkMouse 2 1 15 25 None true in
  let w := drag_page accepting_host in
  exec (drag_mousedown 0 e) w = w /\ emitted w (exec (drag_mousedown 0 e) w) = [].
Proof.
  intros e w.
  assert (button e <> 0) as Hb by (vm_compute; discriminate).
  pose proof (nonprimary_press_ignored 0 e w Hb) as H.
  split; [exact (proj1 (proj2 H)) | exact (proj1 (proj2 (proj2 H)))].
Defined.

(** C9.  The window's [mousemove] listener returns normally and leaves
    the world exactly as it found it, whether or not a session is active:
    the two differences it computes go nowhere, and no call of the bridge
    is made.  On the loaded page, before or after [dragging], the dispatch
    of a [mousemove] changes nothing either (the new event's flags are all
    clear). *)
Theorem mousemove_effect_free s e w :
  drag_mousemove s e w = (Normal tt, w)
  /\ emitted w (exec (drag_mousemove s e) w) = []
  /\ (forall dragged,
        listeners w = page_listeners dragged ->
        exec (dispatch Mousemove e) w = set_flags no_flags w).
Proof.
  split; [apply drag_mousemove_skip|]. split.
  - unfold exec. rewrite drag_mousemove_skip. cbn [snd]. unfold emitted.
    rewrite drop_all. done.
  - intros dragged Hls.
    destruct w as [cells proms sess api inv ipc out cl reg ls fl rep].
    cbn in Hls. subst ls. unfold exec, dispatch, event_path.
    cbn [page_listeners app].
    destruct (through_region e), dragged; run_dom;
      rewrite ?drag_mousemove_skip; reflexivity.
Qed.

Lemma mousemove_effect_free_witness :
  let w := run [Fire Mousedown (press_event 1 10 20 None)] (drag_page accepting_host) in
  let e := mkMouse 0 0 50 60 None false in
  session_flag w = Some true
  /\ exec (dispatch Mousemove e) w = set_flags no_flags w.
Proof.
  intros w e. split; [reflexivity|].
  exact (proj2 (proj2 (mousemove_effect_free 0 e w)) true eq_refl).
Defined.

(** ** Dispatch on the loaded page *)

(** C5, as amended.  Take a [mousedown] whose target bears the marker
    attribute, with click count 1 or 2, that reaches the document (it does
    not pass through the drag region with the primary button once
    [dragging] has run).  Its
    dispatch makes exactly one call of the bridge, [Move] / [true]; default
    action, propagation and immediate propagation are all stopped; and the
    whole dispatch is one run of the listener's body: the second copy of
    the listener does not run.  No exception escapes. *)
Theorem fallback_press_once w cell dragged e :
  win_invoke w = Some cell ->
  listeners w = page_listeners dragged ->
  target_marker e <> None ->
  detail e = 1 \/ detail e = 2 ->
  (through_region e = true -> dragged = true -> button e <> 0) ->
  let w' := exec (dispatch Mousedown e) w in
  emitted w w' = [("Move", JBool true)]
  /\ flags w' = mkFlags true true true
  /\ w' = exec (fallback_mousedown e) (set_flags no_flags w)
  /\ reported w' = reported w.
Proof.
  intros Hinv Hls Hattr Hdetail Hreach w'. subst w'.
  destruct w as [cells proms sess api inv ipc out cl reg ls fl rep].
  cbn in Hinv, Hls. subst inv ls.
  unfold emitted, exec, dispatch, event_path. cbn [page_listeners app].
  destruct (through_region e) eqn:Hthru, dragged; run_dom; cbn [app].
  1: rewrite drag_mousedown_skip by (apply Hreach; reflexivity).
  all: rewrite !(fallback_mousedown_fires cell) by (assumption || reflexivity).
  all: unfold exec; rewrite invoke_fn_eq; simpl_world.
  all: rewrite drop_app_length; repeat split; reflexivity.
Qed.

Lemma fallback_press_once_witness :
  let e := mkMouse 2 2 15 25 (Some "") true in
  let w := drag_page accepting_host in
  emitted w (exec (dispatch Mousedown e) w) = [("Move", JBool true)].
Proof.
  intros e w.
  assert (target_marker e <> None) as Ha by discriminate.
  assert (through_region e = true -> true = true -> button e <> 0) as Hr
    by (intros _ _; vm_compute; discriminate).
  exact (proj1 (fallback_press_once w 0 true e eq_refl eq_refl Ha
                  (or_intror eq_refl) Hr)).
Defined.

(** C5, as stated, fails: a press of the primary button on a marked
    target inside the drag region is taken by the region's listener, which
    stops the propagation; the document's listeners do not run, immediate
    propagation is not stopped, and the one call comes with a session
    started, which the document's listener never does. *)
Lemma region_press_bypasses_fallback :
  let e := mkMouse 0 1 15 25 (Some "") true in
  let w := drag_page accepting_host in
  let w' := exec (dispatch Mousedown e) w in
  target_marker e <> None
  /\ detail e = 1
  /\ flags w' = mkFlags true true false
  /\ session_flag w' = Some true
  /\ flags (exec (fallback_mousedown e) (set_flags no_flags w)) = mkFlags true true true.
Proof.
  intros e w w'. split; [discriminate|]. repeat split; reflexivity.
Qed.

(** ** The press / release protocol *)

Lemma drag_page_ready ipc : drag_ready false (drag_page ipc).
Proof.
  split; [reflexivity|]. split; [exists 0%nat; reflexivity|].
  exists (mkSession false 0 0). split; reflexivity.
Qed.

Lemma press_step active clicks x y marker w :
  drag_ready active w ->
  let w' := perform (gesture_action (Press clicks x y marker)) w in
  drag_ready true w'
  /\ session_flag w' = Some true
  /\ emitted w w' = [("Move", JBool true)].
Proof.
  intros (Hls & [cell Hinv] & [x0 [Hs Hflag]]) w'. subst w'.
  destruct w as [cells proms sess api inv ipc out cl reg ls fl rep].
  cbn in Hls, Hinv, Hs. subst inv ls.
  destruct sess as [|s0 sess]; [discriminate Hs|]. injection Hs as ->.
  unfold drag_ready, session_flag, emitted, perform, gesture_action, press_event,
    exec, dispatch, event_path.
  cbn [through_region page_listeners app]. run_dom.
  rewrite (drag_mousedown_fires cell 0 x0) by reflexivity.
  unfold exec; rewrite invoke_fn_eq; simpl_world.
  rewrite drop_app_length. cbn.
  split; [|done]. split; [reflexivity|]. split; [by exists cell|].
  eexists. split; reflexivity.
Qed.

Lemma release_step active e w :
  drag_ready active w ->
  let w' := perform (gesture_action (Release e)) w in
  drag_ready false w'
  /\ session_flag w' = Some false
  /\ emitted w w' = if active then [("Move", JBool false)] else [].
Proof.
  intros (Hls & [cell Hinv] & [x0 [Hs Hflag]]) w'. subst w'.
  destruct w as [cells proms sess api inv ipc out cl reg ls fl rep].
  cbn in Hls, Hinv, Hs. subst inv ls.
  destruct sess as [|s0 sess]; [discriminate Hs|]. injection Hs as ->.
  destruct x0 as [d sx sy]. cbn in Hflag. subst d.
  unfold drag_ready, session_flag, emitted, perform, gesture_action,
    exec, dispatch, event_path.
  cbn [page_listeners app].
  destruct (through_region e), active; run_dom.
  1, 3: rewrite (drag_mouseup_fires cell 0 (mkSession true sx sy)) by reflexivity;
    unfold exec; rewrite invoke_fn_eq; simpl_world;
    rewrite drop_app_length; cbn;
    (split; [|done]); (split; [reflexivity|]); (split; [by exists cell|]);
    eexists; split; reflexivity.
  all: rewrite drag_mouseup_idle by reflexivity; simpl_world;
    rewrite drop_all; cbn;
    (split; [|done]); (split; [reflexivity|]);
    (split; [by exists cell|]); eexists; split; reflexivity.
Qed.

Lemma observe_protocol gs : forall active w,
  drag_ready active w -> observe gs w = protocol active gs.
Proof.
  induction gs as [|g gs IH]; intros active w Hw; [reflexivity|].
  destruct g as [clicks x y marker | e]; cbn [observe protocol].
  - destruct (press_step active clicks x y marker w Hw) as (Hw' & -> & ->).
    rewrite (IH true) by exact Hw'. reflexivity.
  - destruct (release_step active e w Hw) as (Hw' & -> & ->).
    rewrite (IH false) by exact Hw'. reflexivity.
Qed.

Lemma protocol_press_release ps :
  protocol false (press_release ps)
  = flat_map (fun _ => [(Some true, [("Move", JBool true)]);
                        (Some false, [("Move", JBool false)])]) ps.
Proof.
  induction ps as [|[[[[clicks x] y] marker] up] ps IH]; [reflexivity|].
  cbn [press_release protocol]. rewrite IH. reflexivity.
Qed.

(** C4.  On the page set up with the region element present, whatever the
    transport, every sequence of primary-button presses on the region and
    of releases is observed exactly as the protocol says: after a press the
    session flag is true and that press made exactly one call, [Move] /
    [true]; after a release the flag is false and the release made exactly
    one call, [Move] / [false], if a session was active and none
    otherwise.  For presses each followed by its release, the flag goes
    true, false, true, false, ... and each pair makes the two calls in
    this order. *)
Theorem drag_protocol ipc :
  session_flag (drag_page ipc) = Some false
  /\ (forall gs, observe gs (drag_page ipc) = protocol false gs)
  /\ (forall ps,
        observe (press_release ps) (drag_page ipc)
        = flat_map (fun _ => [(Some true, [("Move", JBool true)]);
                              (Some false, [("Move", JBool false)])]) ps)
  /\ (forall gs e,
        let w := run (map gesture_action gs) (drag_page ipc) in
        session_flag w = Some false ->
        emitted w (perform (gesture_action (Release e)) w) = []).
Proof.
  split; [reflexivity|]. split; [|split].
  - intros gs. apply observe_protocol, drag_page_ready.
  - intros ps. rewrite (observe_protocol _ false) by apply drag_page_ready.
    apply protocol_press_release.
  - intros gs e w Hflag.
    assert (exists active, drag_ready active w) as [active Hw].
    { subst w. clear Hflag. generalize (drag_page_ready ipc).
      generalize (drag_page ipc) false. induction gs as [|g gs IH]; intros w0 a Hw0.
      - exists a. exact Hw0.
      - cbn [map run fold_left]. destruct g as [clicks x y marker | e0].
        + apply (IH _ true). apply (press_step a clicks x y marker w0 Hw0).
        + apply (IH _ false). apply (release_step a e0 w0 Hw0). }
    destruct (release_step active e w Hw) as (_ & _ & ->).
    destruct Hw as (_ & _ & [x0 [Hs Ha]]). unfold session_flag in Hflag.
    rewrite Hs in Hflag. cbn in Hflag. destruct active; [congruence | reflexivity].
Qed.

Lemma drag_protocol_witness :
  let gs := [Press 1 10 20 None; Release (mkMouse 0 1 30 40 None false)] in
  let w := run (map gesture_action gs) (drag_page accepting_host) in
  emitted w (perform (gesture_action (Release (mkMouse 0 1 30 40 None false))) w) = [].
Proof.
  intros gs w.
  exact (proj2 (proj2 (proj2 (drag_protocol accepting_host))) gs
           (mkMouse 0 1 30 40 None false) eq_refl).
Defined.

(** * Further properties of the script *)

(** ** Presses the document's listener does not act on *)

Lemma mousedown_unqualified w dragged e :
  listeners w = page_listeners dragged ->
  ~ qualifies e ->
  reaches_document dragged e ->
  exec (dispatch Mousedown e) w = set_flags no_flags w.
Proof.
  intros Hls Hq Hreach.
  assert (target_marker e = None \/ (detail e <> 1 /\ detail e <> 2)) as Hskip.
  { unfold qualifies in Hq. destruct (target_marker e) as [m|]; [right | by left].
    split; intros Hd; apply Hq; (split; [discriminate | auto]). }
  destruct w as [cells proms sess api inv ipc out cl reg ls fl rep].
  cbn in Hls. subst ls. unfold exec, dispatch, event_path.
  cbn [page_listeners app].
  destruct (through_region e) eqn:Hthru, dragged; run_dom.
  1: rewrite drag_mousedown_skip by (apply Hreach; [exact Hthru | reflexivity]); run_dom.
  all: rewrite !fallback_mousedown_skip by exact Hskip; reflexivity.
Qed.

(** X1.  A [mousedown] that reaches the document and whose target lacks the
    marker, or whose click count is neither 1 nor 2, goes through both
    copies of the document's listener without any effect: no call of the
    bridge, default action not prevented, propagation not stopped. *)
Theorem fallback_ignores w dragged e :
  listeners w = page_listeners dragged ->
  ~ qualifies e ->
  reaches_document dragged e ->
  let w' := exec (dispatch Mousedown e) w in
  w' = set_flags no_flags w
  /\ emitted w w' = []
  /\ flags w' = mkFlags false false false.
Proof.
  intros Hls Hq Hreach w'. subst w'.
  rewrite (mousedown_unqualified w dragged e Hls Hq Hreach).
  unfold emitted. destruct w; cbn. rewrite drop_all. done.
Qed.

Lemma fallback_ignores_witness :
  let e := mkMouse 0 3 15 25 (Some "") false in
  let w := drag_page accepting_host in
  exec (dispatch Mousedown e) w = set_flags no_flags w.
Proof.
  intros e w.
  assert (~ qualifies e) as Hq
    by (intros [_ [H | H]]; vm_compute in H; discriminate H).
  assert (reaches_document true e) as Hr by (intros H; discriminate H).
  exact (proj1 (fallback_ignores w true e eq_refl Hq Hr)).
Defined.

(** ** A start without an end *)

Lemma fallback_press_step w e :
  drag_ready false w ->
  qualifies e ->
  reaches_document true e ->
  let w' := perform (Fire Mousedown e) w in
  drag_ready false w'
  /\ session_flag w' = Some false
  /\ sessions w' = sessions w
  /\ emitted w w' = [("Move", JBool true)].
Proof.
  intros (Hls & [cell Hinv] & [x0 [Hs Hflag]]) [Ha Hd] Hreach w'. subst w'.
  destruct w as [cells proms sess api inv ipc out cl reg ls fl rep].
  cbn in Hls, Hinv, Hs. subst inv ls.
  destruct x0 as [d sx sy]. cbn in Hflag. subst d.
  unfold drag_ready, session_flag, emitted, perform, exec, dispatch, event_path.
  cbn [page_listeners app].
  destruct (through_region e) eqn:Hthru; run_dom.
  1: rewrite drag_mousedown_skip by (apply Hreach; [exact Hthru | reflexivity]); run_dom.
  all: rewrite !(fallback_mousedown_fires cell) by (assumption || reflexivity).
  all: unfold exec; rewrite invoke_fn_eq; simpl_world.
  all: rewrite drop_app_length, Hs; cbn.
  all: split; [|done]; split; [reflexivity|]; split; [by exists cell|].
  all: eexists; split; reflexivity.
Qed.

(** X2.  The document's listener has no button check and keeps no
    session.  On the set-up page with no session active, a marked press
    with click count 1 or 2 that reaches the document (for instance with
    the secondary button on the region) signals [Move] / [true] and leaves
    the session flag false; the release that follows therefore signals
    nothing: this start is never followed by a [Move] / [false]. *)
Theorem fallback_start_has_no_end w e up :
  drag_ready false w ->
  qualifies e ->
  reaches_document true e ->
  let w1 := perform (Fire Mousedown e) w in
  let w2 := perform (Fire Mouseup up) w1 in
  emitted w w1 = [("Move", JBool true)]
  /\ session_flag w1 = Some false
  /\ emitted w1 w2 = []
  /\ session_flag w2 = Some false.
Proof.
  intros Hw Hq Hreach w1 w2.
  destruct (fallback_press_step w e Hw Hq Hreach) as (Hw1 & Hf1 & _ & He1).
  fold w1 in Hw1, Hf1, He1.
  destruct (release_step false up w1 Hw1) as (_ & Hf2 & He2).
  done.
Qed.

Lemma fallback_start_has_no_end_witness :
  let e := mkMouse 2 1 15 25 (Some "") true in
  let up := mkMouse 2 1 15 25 (Some "") true in
  let w := drag_page IpcMissing in
  let w1 := perform (Fire Mousedown e) w in
  emitted w w1 = [("Move", JBool true)]
  /\ emitted w1 (perform (Fire Mouseup up) w1) = [].
Proof.
  intros e up w w1.
  assert (qualifies e) as Hq by (split; [discriminate | left; reflexivity]).
  assert (reaches_document true e) as Hr by (intros _ _; vm_compute; discriminate).
  pose proof (fallback_start_has_no_end w e up (drag_page_ready IpcMissing) Hq Hr) as H.
  split; [exact (proj1 H) | exact (proj1 (proj2 (proj2 H)))].
Defined.

(** ** A page without a drag region *)

Lemma dragging_no_region w :
  has_region w = false -> dragging w = (Normal tt, w).
Proof. intros H. unfold dragging, bind, gets. rewrite H. reflexivity. Qed.

Lemma dispatch_unlistened ty e w :
  ty <> Mousedown ->
  listeners w = page_listeners false ->
  exec (dispatch ty e) w = set_flags no_flags w.
Proof.
  intros Hty Hls.
  destruct w as [cells proms sess api inv ipc out cl reg ls fl rep].
  cbn in Hls. subst ls. unfold exec, dispatch, event_path.
  cbn [page_listeners app].
  destruct ty; [contradiction| |]; destruct (through_region e); reflexivity.
Qed.

(** X3.  Without an element carrying the region's marker, [dragging]
    does nothing at all: it allocates no session and registers no listener,
    however often it is called.  On such a page no release, no move, and no
    press other than one the document's listener acts on ever calls the
    bridge. *)
Theorem no_region_no_signal ipc acts :
  Forall silent acts ->
  let w0 := exec script (fresh_page false ipc) in
  let w := run (CallDragging :: acts) w0 in
  exec dragging w0 = w0
  /\ calls w = []
  /\ sessions w = []
  /\ listeners w = page_listeners false.
Proof.
  intros Hacts w0 w.
  assert (exec dragging w0 = w0) as Hd.
  { unfold exec. rewrite dragging_no_region; reflexivity. }
  split; [exact Hd|]. subst w. cbn [run fold_left perform]. rewrite Hd.
  assert (has_region w0 = false /\ calls w0 = [] /\ sessions w0 = []
          /\ listeners w0 = page_listeners false) as Hinv by done.
  clearbody w0. clear Hd. revert w0 Hinv.
  induction Hacts as [|a acts Ha _ IH]; intros w0 Hinv; [tauto|].
  cbn [fold_left]. apply IH. destruct Hinv as (Hr & Hc & Hs & Hl).
  destruct a as [| |ty e|]; cbn [silent perform] in *; try contradiction.
  - unfold exec. rewrite dragging_no_region by exact Hr. done.
  - assert (exec (dispatch ty e) w0 = set_flags no_flags w0) as ->.
    { destruct ty.
      - apply (mousedown_unqualified w0 false e Hl Ha). intros _ H. discriminate H.
      - apply dispatch_unlistened; [discriminate | exact Hl].
      - apply dispatch_unlistened; [discriminate | exact Hl]. }
    destruct w0; done.
Qed.

Lemma no_region_no_signal_witness :
  let acts := [Fire Mousedown (mkMouse 0 1 5 5 None false);
               Fire Mousemove (mkMouse 0 0 9 9 None false); CallDragging;
               Fire Mouseup (mkMouse 0 1 9 9 None false)] in
  calls (run (CallDragging :: acts) (exec script (fresh_page false accepting_host))) = [].
Proof.
  intros acts.
  assert (Forall silent acts) as H.
  { repeat constructor. intros [Hm _]. apply Hm. reflexivity. }
  exact (proj1 (proj2 (no_region_no_signal accepting_host acts H))).
Defined.

(** ** Loading the file over an existing bridge *)



(** ** The recorded start coordinates *)

Lemma gesture_session g s w :
  listeners w = page_listeners true ->
  (exists cell, win_invoke w = Some cell) ->
  sessions w = [s] ->
  let w' := perform (gesture_action g) w in
  listeners w' = page_listeners true
  /\ (exists cell, win_invoke w' = Some cell)
  /\ sessions w' = [session_after s [g]].
Proof.
  intros Hls [cell Hinv] Hs w'. subst w'.
  destruct w as [cells proms sess api inv ipc out cl reg ls fl rep].
  cbn in Hls, Hinv, Hs. subst inv ls sess. destruct s as [d sx sy].
  destruct g as [clicks x y marker | e];
    unfold perform, gesture_action, press_event, exec, dispatch, event_path;
    cbn [through_region page_listeners app session_after startX startY].
  - run_dom. rewrite (drag_mousedown_fires cell 0 (mkSession d sx sy)) by reflexivity.
    unfold exec; rewrite invoke_fn_eq; simpl_world.
    split; [reflexivity|]. split; [by exists cell | reflexivity].
  - destruct (through_region e), d; run_dom.
    1, 3: rewrite (drag_mouseup_fires cell 0 (mkSession true sx sy)) by reflexivity;
      unfold exec; rewrite invoke_fn_eq; simpl_world;
      (split; [reflexivity|]); (split; [by exists cell | reflexivity]).
    all: rewrite drag_mouseup_idle by reflexivity; simpl_world;
      (split; [reflexivity|]); (split; [by exists cell | reflexivity]).
Qed.

(** X5.  On the set-up page the session cell holds, after any sequence of
    primary presses on the region and of releases, the flag of the last
    gesture and the pointer coordinates of the most recent press (0, 0
    before the first): a press overwrites them even when a session is
    already active, and a release leaves them in place. *)
Theorem start_coordinates_follow_presses ipc gs :
  sessions (run (map gesture_action gs) (drag_page ipc))
  = [session_after (mkSession false 0 0) gs].
Proof.
  assert (forall s w,
            listeners w = page_listeners true ->
            (exists cell, win_invoke w = Some cell) ->
            sessions w = [s] ->
            sessions (run (map gesture_action gs) w) = [session_after s gs]) as H.
  { induction gs as [|g gs IH]; intros s w Hls Hinv Hs; [exact Hs|].
    destruct (gesture_session g s w Hls Hinv Hs) as (Hls' & Hinv' & Hs').
    cbn [map run fold_left]. unfold run in IH. rewrite (IH _ _ Hls' Hinv' Hs').
    destruct g; reflexivity. }
  apply H; [reflexivity | by exists 0%nat | reflexivity].
Qed.

(** ** One promise and one message per call, always *)




(** ** The two names of the bridge *)

Lemma invoke_fn_keeps_names cell event value w :
  let w' := exec (invoke_fn cell event value) w in
  win_invoke w' = win_invoke w /\ win_API_INVOKE w' = win_API_INVOKE w.
Proof. unfold exec. rewrite invoke_fn_eq. destruct w; done. Qed.

(** X7.  [window.invoke] and [window.__API__INVOKE] hold one and the same
    function, closed over one counter: on a freshly loaded page a call
    through either name has the same effect, so any mix of calls through
    the two names leaves the page exactly as the same calls through
    [invoke] alone, and takes the same identifiers. *)
Theorem both_names_share_counter region ipc cs :
  let w0 := exec script (fresh_page region ipc) in
  call_all cs w0 = (invoke_all (map snd cs) w0).2
  /\ ids (call_all cs w0) = ids_from 1 (length cs).
Proof.
  intros w0.
  assert (forall w, win_invoke w = win_API_INVOKE w ->
            call_all cs w = (invoke_all (map snd cs) w).2) as H.
  { induction cs as [|[alias [event value]] cs IH]; intros w Hw; [reflexivity|].
    cbn [call_all map snd invoke_all].
    assert (exec (API_INVOKE event value) w = exec (invoke event value) w) as Hsame.
    { unfold exec, API_INVOKE, invoke. rewrite Hw.
      destruct (win_API_INVOKE w); reflexivity. }
    assert (win_invoke (exec (invoke event value) w)
            = win_API_INVOKE (exec (invoke event value) w)) as Hw'.
    { unfold exec at 1 2, invoke.
      destruct (win_invoke w) as [cell|] eqn:E; [|cbn [snd]; congruence].
      destruct (invoke_fn_keeps_names cell event value w) as [H1 H2].
      unfold exec in H1, H2. congruence. }
    specialize (IH _ Hw'). unfold exec in *.
    destruct (invoke event value w) as [r w1]. cbn [snd] in *.
    destruct (invoke_all (map snd cs) w1) as [rs w2]. cbn [snd] in *.
    destruct alias; [rewrite Hsame|]; exact IH. }
  assert (call_all cs w0 = (invoke_all (map snd cs) w0).2) as Heq
    by (apply H; reflexivity).
  split; [exact Heq|]. rewrite Heq. subst w0.
  rewrite ids_after_calls, length_map. reflexivity.
Qed.

(** ** No exception escapes a listener *)


















(** ** Dispatch, step by step *)

Lemma run_app acts1 acts2 w : run (acts1 ++ acts2) w = run acts2 (run acts1 w).
Proof. unfold run. apply fold_left_app. Qed.

Lemma run_replicate_S n a w :
  run (replicate (S n) a) w = perform a (run (replicate n a) w).
Proof.
  rewrite replicate_S_end, run_app. reflexivity.
Qed.

Lemma listeners_on_app t ty rs1 rs2 :
  listeners_on t ty (rs1 ++ rs2) = listeners_on t ty rs1 ++ listeners_on t ty rs2.
Proof.
  induction rs1 as [|r rs1 IH]; [reflexivity|]. cbn [app listeners_on].
  destruct (target_eqb (reg_target r) t && type_eqb (reg_type r) ty);
    rewrite IH; reflexivity.
Qed.

Lemma invoke_listeners_normal cbs e : forall w,
  (invoke_listeners cbs e w).1 = Normal tt.
Proof.
  induction cbs as [|cb cbs IH]; intros w; [reflexivity|].
  cbn [invoke_listeners]. unfold bind, gets, report.
  destruct (immediateStopped (flags w)); [reflexivity|].
  destruct (run_callback cb e w) as [[a|err] w1]; apply IH.
Qed.

Lemma invoke_listeners_stopped cbs e w :
  immediateStopped (flags w) = true ->
  invoke_listeners cbs e w = (Normal tt, w).
Proof.
  intros H. destruct cbs as [|cb cbs]; [reflexivity|].
  cbn [invoke_listeners]. unfold bind, gets. rewrite H. reflexivity.
Qed.

Lemma invoke_listeners_cons cb cbs e w a w1 :
  immediateStopped (flags w) = false ->
  run_callback cb e w = (Normal a, w1) ->
  invoke_listeners (cb :: cbs) e w = invoke_listeners cbs e w1.
Proof.
  intros Hf Hcb. cbn [invoke_listeners]. unfold bind, gets, report.
  rewrite Hf, Hcb. reflexivity.
Qed.

Lemma bubble_stopped path ty e w :
  propagationStopped (flags w) = true -> bubble path ty e w = (Normal tt, w).
Proof.
  intros H. destruct path as [|t path]; [reflexivity|].
  cbn [bubble]. unfold bind, gets. rewrite H. reflexivity.
Qed.

Lemma bubble_cons t path ty e w :
  propagationStopped (flags w) = false ->
  bubble (t :: path) ty e w
  = bubble path ty e (invoke_listeners (listeners_on t ty (listeners w)) e w).2.
Proof.
  intros H. cbn [bubble]. unfold bind, gets, exec. rewrite H.
  pose proof (invoke_listeners_normal (listeners_on t ty (listeners w)) e w) as Hn.
  destruct (invoke_listeners _ e w) as [r w1]. cbn [fst snd] in *. subst r.
  reflexivity.
Qed.

Lemma bubble_cons_none t path ty e w :
  propagationStopped (flags w) = false ->
  listeners_on t ty (listeners w) = [] ->
  bubble (t :: path) ty e w = bubble path ty e w.
Proof. intros H Hl. rewrite bubble_cons by exact H. rewrite Hl. reflexivity. Qed.

(** ** The file loaded several times *)

Lemma listeners_on_fallbacks t ty k :
  listeners_on t ty (replicate k (mkReg Document Mousedown FallbackDown))
  = if target_eqb Document t && type_eqb Mousedown ty
    then replicate k FallbackDown else [].
Proof.
  induction k as [|k IH]; [destruct (_ && _); reflexivity|].
  cbn [replicate listeners_on reg_target reg_type reg_callback]. rewrite IH.
  destruct (target_eqb Document t && type_eqb Mousedown ty); reflexivity.
Qed.

Lemma loaded_times n region ipc :
  run (replicate (S n) LoadScript) (fresh_page region ipc)
  = mkWorld [1] [] [] (Some 0%nat) (Some 0%nat) ipc [] [] region
      (replicate (2 * S n) (mkReg Document Mousedown FallbackDown)) no_flags [].
Proof.
  induction n as [|n IH]; [reflexivity|].
  rewrite run_replicate_S, IH. cbn [perform]. unfold exec, script, bind,
    addEventListener, modify, install_bridge. simpl_world.
  f_equal. rewrite <- !replicate_S_end. f_equal. lia.
Qed.

(** X9.  Loading the file again only adds two more copies of the
    document's listener: the bridge and its counter stay those of the first
    load.  However many times the file has been loaded, a marked press with
    click count 1 or 2 makes exactly one call of the bridge, because the
    first copy stops immediate propagation before the others run. *)
Theorem reloaded_page_signals_once n region ipc e :
  qualifies e ->
  let w := run (replicate (S n) LoadScript) (fresh_page region ipc) in
  let w' := exec (dispatch Mousedown e) w in
  length (listeners_on Document Mousedown (listeners w)) = (2 * S n)%nat
  /\ nextId_cells w = [1]
  /\ calls w' = [mkCall 1 "Move" (JBool true)]
  /\ flags w' = mkFlags true true true.
Proof.
  intros [Ha Hd] w w'. subst w' w. rewrite loaded_times.
  split. { cbn [listeners]. rewrite listeners_on_fallbacks. apply length_replicate. }
  split; [reflexivity|].
  unfold exec, dispatch, bind, modify. simpl_world.
  assert (forall path w0,
            listeners w0 = replicate (2 * S n) (mkReg Document Mousedown FallbackDown) ->
            flags w0 = no_flags -> win_invoke w0 = Some 0%nat ->
            (path = [Document; Window] \/ path = [Region; Document; Window]) ->
            bubble path Mousedown e w0
            = (Normal tt, exec (invoke_fn 0 "Move" (JBool true))
                            (set_flags (mkFlags true true true) w0))) as H.
  { intros path w0 Hl Hf Hi Hpath.
    assert (bubble [Document; Window] Mousedown e w0
            = (Normal tt, exec (invoke_fn 0 "Move" (JBool true))
                            (set_flags (mkFlags true true true) w0))) as Hdoc.
    { rewrite bubble_cons by (rewrite Hf; reflexivity).
      rewrite Hl, listeners_on_fallbacks. cbn [target_eqb type_eqb andb].
      replace (2 * S n)%nat with (S (S (2 * n))) by lia. cbn [replicate].
      rewrite (invoke_listeners_cons _ _ _ _ tt
                 (exec (invoke_fn 0 "Move" (JBool true))
                    (set_flags (mkFlags true true true) w0)));
        [|rewrite Hf; reflexivity
         |cbn [run_callback]; apply fallback_mousedown_fires; assumption].
      assert (flags (exec (invoke_fn 0 "Move" (JBool true))
                       (set_flags (mkFlags true true true) w0))
              = mkFlags true true true) as Hfl.
      { unfold exec. rewrite invoke_fn_eq. destruct w0; reflexivity. }
      rewrite invoke_listeners_stopped by (rewrite Hfl; reflexivity).
      cbn [snd]. apply bubble_stopped. rewrite Hfl. reflexivity. }
    destruct Hpath as [-> | ->]; [exact Hdoc|].
    rewrite bubble_cons_none; [exact Hdoc | rewrite Hf; reflexivity|].
    rewrite Hl, listeners_on_fallbacks. reflexivity. }
  rewrite H; [|reflexivity..|unfold event_path; destruct (through_region e); auto].
  unfold exec. rewrite invoke_fn_eq. split; reflexivity.
Qed.

Lemma reloaded_page_signals_once_witness :
  let e := mkMouse 0 2 15 25 (Some "") false in
  calls (exec (dispatch Mousedown e)
           (run (replicate 3 LoadScript) (fresh_page false accepting_host)))
  = [mkCall 1 "Move" (JBool true)].
Proof.
  intros e.
  assert (qualifies e) as Hq by (split; [discriminate | right; reflexivity]).
  exact (proj1 (proj2 (proj2
           (reloaded_page_signals_once 2 false accepting_host e Hq)))).
Defined.

(** ** [dragging] called several times *)

Lemma dragged_times n ipc :
  let w := run (replicate n CallDragging) (exec script (fresh_page true ipc)) in
  listeners w = page_listeners false ++ flat_map drag_listeners (seq 0 n)
  /\ sessions w = replicate n (mkSession false 0 0)
  /\ win_invoke w = Some 0%nat
  /\ has_region w = true
  /\ calls w = []
  /\ flags w = no_flags.
Proof.
  induction n as [|n IH]; [cbn; done|].
  cbn zeta in *. rewrite run_replicate_S.
  destruct IH as (Hl & Hs & Hi & Hr & Hc & Hf).
  destruct (run (replicate n CallDragging) (exec script (fresh_page true ipc)))
    as [cells proms sess api inv ipc0 out cl reg ls fl rep].
  cbn in Hl, Hs, Hi, Hr, Hc, Hf. subst.
  cbn [perform]. unfold exec, dragging, bind, gets, alloc_session,
    addEventListener, modify. simpl_world.
  rewrite length_replicate, seq_S, flat_map_app, <- replicate_S_end.
  cbn [flat_map app Nat.add]. rewrite app_nil_r, <- !app_assoc. done.
Qed.

Lemma listeners_on_drag t ty k n :
  listeners_on t ty (flat_map drag_listeners (seq k n))
  = match t, ty with
    | Region, Mousedown => map DragDown (seq k n)
    | Window, Mousemove => map DragMove (seq k n)
    | Window, Mouseup => map DragUp (seq k n)
    | _, _ => []
    end.
Proof.
  revert k. induction n as [|n IH]; intros k; [destruct t, ty; reflexivity|].
  cbn [seq flat_map map]. rewrite listeners_on_app, IH.
  destruct t, ty; reflexivity.
Qed.

Lemma drag_down_effect cell s x e w :
  win_invoke w = Some cell ->
  sessions w !! s = Some x ->
  button e = 0 ->
  exists w1,
    run_callback (DragDown s) e w = (Normal tt, w1)
    /\ win_invoke w1 = Some cell
    /\ sessions w1 = <[s := mkSession true (clientX e) (clientY e)]> (sessions w)
    /\ calls w1 = calls w ++ [mkCall (next_id cell w) "Move" (JBool true)]
    /\ listeners w1 = listeners w
    /\ flags w1 = mkFlags true true (immediateStopped (flags w)).
Proof.
  intros Hi Hs Hb. eexists. split.
  { cbn [run_callback]. apply (drag_mousedown_fires cell s x); assumption. }
  unfold exec. rewrite invoke_fn_eq. destruct w. cbn in *. done.
Qed.

Lemma drag_up_effect cell s x w e :
  win_invoke w = Some cell ->
  sessions w !! s = Some x ->
  isDragging x = true ->
  exists w1,
    run_callback (DragUp s) e w = (Normal tt, w1)
    /\ win_invoke w1 = Some cell
    /\ sessions w1 = <[s := ended x]> (sessions w)
    /\ calls w1 = calls w ++ [mkCall (next_id cell w) "Move" (JBool false)]
    /\ listeners w1 = listeners w
    /\ flags w1 = flags w.
Proof.
  intros Hi Hs Hd. eexists. split.
  { cbn [run_callback]. apply (drag_mouseup_fires cell s x); assumption. }
  unfold exec. rewrite invoke_fn_eq. destruct w. cbn in *. done.
Qed.

Lemma drag_down_all cell e :
  button e = 0 ->
  forall todo done w,
    win_invoke w = Some cell ->
    immediateStopped (flags w) = false ->
    sessions w = done ++ todo ->
    let w' := (invoke_listeners
                 (map DragDown (seq (length done) (length todo))) e w).2 in
    sessions w'
    = done ++ replicate (length todo) (mkSession true (clientX e) (clientY e))
    /\ (exists l, calls w' = calls w ++ l
                  /\ map call_signal l = replicate (length todo) ("Move", JBool true))
    /\ win_invoke w' = Some cell
    /\ listeners w' = listeners w
    /\ immediateStopped (flags w') = false
    /\ (todo <> [] -> propagationStopped (flags w') = true).
Proof.
  intros Hb. induction todo as [|t todo IH]; intros done w Hi Hf Hs.
  - cbn. rewrite Hs. repeat split; try done. exists []. by rewrite app_nil_r.
  - cbn [length seq map].
    destruct (drag_down_effect cell (length done) t e w Hi) as
      (w1 & Hrun & Hi1 & Hs1 & Hc1 & Hl1 & Hf1);
      [rewrite Hs; apply list_lookup_middle; reflexivity | exact Hb|].
    rewrite (invoke_listeners_cons _ _ _ _ _ _ Hf Hrun).
    rewrite Hs, insert_app_r_alt, Nat.sub_diag in Hs1 by done. cbn in Hs1.
    rewrite Hf in Hf1.
    specialize (IH (done ++ [mkSession true (clientX e) (clientY e)]) w1 Hi1).
    rewrite length_app, Nat.add_1_r in IH. cbn zeta in IH.
    destruct IH as (Hs' & [l [Hc' Hl']] & Hi' & Hls' & Hf' & Hp');
      [rewrite Hf1; reflexivity | rewrite Hs1, <- app_assoc; reflexivity|].
    split; [rewrite Hs', <- app_assoc; reflexivity|].
    split.
    { eexists (_ :: l). split; [rewrite Hc', Hc1, <- app_assoc; reflexivity|].
      cbn [map replicate]. rewrite Hl'. reflexivity. }
    split; [exact Hi'|]. split; [congruence|]. split; [exact Hf'|].
    intros _. destruct todo as [|t' todo]; [|apply Hp'; discriminate].
    cbn in *. rewrite Hf1. reflexivity.
Qed.

Lemma drag_up_all cell e :
  forall todo done w,
    win_invoke w = Some cell ->
    immediateStopped (flags w) = false ->
    sessions w = done ++ todo ->
    Forall (fun x => isDragging x = true) todo ->
    let w' := (invoke_listeners
                 (map DragUp (seq (length done) (length todo))) e w).2 in
    sessions w' = done ++ map ended todo
    /\ (exists l, calls w' = calls w ++ l
                  /\ map call_signal l = replicate (length todo) ("Move", JBool false)).
Proof.
  induction todo as [|t todo IH]; intros done w Hi Hf Hs Hall.
  - cbn. rewrite Hs. split; [done|]. exists []. by rewrite app_nil_r.
  - cbn [length seq map]. inversion Hall as [|? ? Ht Hall']; subst.
    destruct (drag_up_effect cell (length done) t w e Hi) as
      (w1 & Hrun & Hi1 & Hs1 & Hc1 & Hl1 & Hf1);
      [rewrite Hs; apply list_lookup_middle; reflexivity | exact Ht|].
    rewrite (invoke_listeners_cons _ _ _ _ _ _ Hf Hrun).
    rewrite Hs, insert_app_r_alt, Nat.sub_diag in Hs1 by done. cbn in Hs1.
    specialize (IH (done ++ [ended t]) w1 Hi1).
    rewrite length_app, Nat.add_1_r in IH. cbn zeta in IH.
    destruct IH as (Hs' & [l [Hc' Hl']]);
      [congruence | rewrite Hs1, <- app_assoc; reflexivity | exact Hall'|].
    split; [rewrite Hs', <- app_assoc; reflexivity|].
    eexists (_ :: l). split; [rewrite Hc', Hc1, <- app_assoc; reflexivity|].
    cbn [map replicate]. rewrite Hl'. reflexivity.
Qed.

Lemma press_all_sessions cell e w n :
  button e = 0 ->
  through_region e = true ->
  win_invoke w = Some cell ->
  listeners w = page_listeners false ++ flat_map drag_listeners (seq 0 (S n)) ->
  length (sessions w) = S n ->
  let w' := exec (dispatch Mousedown e) w in
  sessions w' = replicate (S n) (mkSession true (clientX e) (clientY e))
  /\ (exists l, calls w' = calls w ++ l
                /\ map call_signal l = replicate (S n) ("Move", JBool true))
  /\ win_invoke w' = Some cell
  /\ listeners w' = listeners w.
Proof.
  intros Hb Hthru Hi Hl Hs w'. subst w'.
  unfold exec, dispatch, bind, modify, event_path. rewrite Hthru. cbn [fst snd].
  set (w0 := set_flags no_flags w).
  assert (win_invoke w0 = Some cell /\ listeners w0 = listeners w
          /\ sessions w0 = sessions w /\ calls w0 = calls w
          /\ flags w0 = no_flags) as (Hi0 & Hl0 & Hs0 & Hc0 & Hf0)
    by (subst w0; destruct w; done).
  rewrite bubble_cons by (rewrite Hf0; reflexivity).
  rewrite Hl0, Hl, listeners_on_app, listeners_on_drag. cbn [page_listeners app listeners_on
    reg_target reg_type target_eqb type_eqb andb].
  destruct (drag_down_all cell e Hb (sessions w) [] w0 Hi0) as
    (Hs' & Hc' & Hi' & Hl' & _ & Hp');
    [rewrite Hf0; reflexivity | rewrite Hs0; reflexivity|].
  cbn [length] in Hs', Hc', Hi', Hl', Hp'. rewrite Hs in Hs', Hc', Hi', Hl', Hp'.
  rewrite bubble_stopped
    by (apply Hp'; intros H; rewrite H in Hs; discriminate Hs).
  cbn [snd app] in *. rewrite Hc0 in Hc'. rewrite Hl0, Hl in Hl'. done.
Qed.

Lemma release_all_sessions cell e w n :
  win_invoke w = Some cell ->
  listeners w = page_listeners false ++ flat_map drag_listeners (seq 0 n) ->
  length (sessions w) = n ->
  Forall (fun x => isDragging x = true) (sessions w) ->
  let w' := exec (dispatch Mouseup e) w in
  sessions w' = map ended (sessions w)
  /\ (exists l, calls w' = calls w ++ l
                /\ map call_signal l = replicate n ("Move", JBool false)).
Proof.
  intros Hi Hl Hs Hall w'. subst w'.
  unfold exec, dispatch, bind, modify. cbn [fst snd].
  set (w0 := set_flags no_flags w).
  assert (win_invoke w0 = Some cell /\ listeners w0 = listeners w
          /\ sessions w0 = sessions w /\ calls w0 = calls w
          /\ flags w0 = no_flags) as (Hi0 & Hl0 & Hs0 & Hc0 & Hf0)
    by (subst w0; destruct w; done).
  assert (bubble (event_path e) Mouseup e w0 = bubble [Window] Mouseup e w0) as ->.
  { unfold event_path. destruct (through_region e).
    - rewrite !bubble_cons_none
        by first [ rewrite Hf0; reflexivity
                 | rewrite Hl0, Hl, listeners_on_app, listeners_on_drag; reflexivity ].
      reflexivity.
    - rewrite bubble_cons_none
        by first [ rewrite Hf0; reflexivity
                 | rewrite Hl0, Hl, listeners_on_app, listeners_on_drag; reflexivity ].
      reflexivity. }
  rewrite bubble_cons by (rewrite Hf0; reflexivity).
  rewrite Hl0, Hl, listeners_on_app, listeners_on_drag. cbn [page_listeners app listeners_on
    reg_target reg_type target_eqb type_eqb andb bubble ret snd].
  destruct (drag_up_all cell e (sessions w) [] w0 Hi0) as (Hs' & Hc');
    [rewrite Hf0; reflexivity | rewrite Hs0; reflexivity | exact Hall|].
  cbn [length app] in Hs', Hc'. rewrite Hs in Hs', Hc'. rewrite Hc0 in Hc'. done.
Qed.

(** X10.  Unlike the installation of the bridge, [dragging] has no guard
    against running twice: every call allocates a new session and registers
    three more listeners, and stopping the propagation does not keep the
    other listeners of the region from running.  After [n + 1] calls a
    single primary press on the region makes [n + 1] calls of the bridge,
    [Move] / [true], and marks every session active with the pointer's
    coordinates; the release makes [n + 1] calls [Move] / [false] and ends
    them all. *)
Theorem repeated_dragging_repeats_signals n ipc clicks x y marker up :
  let w := run (replicate (S n) CallDragging) (exec script (fresh_page true ipc)) in
  let w1 := perform (gesture_action (Press clicks x y marker)) w in
  let w2 := perform (gesture_action (Release up)) w1 in
  emitted w w1 = replicate (S n) ("Move", JBool true)
  /\ sessions w1 = replicate (S n) (mkSession true x y)
  /\ emitted w1 w2 = replicate (S n) ("Move", JBool false)
  /\ sessions w2 = replicate (S n) (mkSession false x y).
Proof.
  intros w w1 w2.
  destruct (dragged_times (S n) ipc) as (Hl & Hs & Hi & _ & Hc & _). fold w in Hl, Hs, Hi, Hc.
  destruct (press_all_sessions 0 (press_event clicks x y marker) w n) as
    (Hs1 & [l1 [Hc1 Hl1]] & Hi1 & Hls1);
    [reflexivity | reflexivity | exact Hi | exact Hl
    | rewrite Hs; apply length_replicate|].
  change (exec (dispatch Mousedown (press_event clicks x y marker)) w) with w1 in *.
  cbn [press_event clientX clientY] in Hs1.
  destruct (release_all_sessions 0 up w1 (S n)) as (Hs2 & [l2 [Hc2 Hl2]]);
    [exact Hi1 | congruence | rewrite Hs1; apply length_replicate
    | rewrite Hs1; apply Forall_replicate; reflexivity|].
  change (exec (dispatch Mouseup up) w1) with w2 in *.
  unfold emitted. rewrite Hc2, Hc1, !drop_app_length.
  split; [exact Hl1|]. split; [exact Hs1|]. split; [exact Hl2|].
  rewrite Hs2, Hs1. clear. induction (S n) as [|k IH]; [reflexivity|].
  cbn [replicate map]. rewrite IH. reflexivity.
Qed.

(** ** The wire text of every message *)

Lemma strip_digit m t :
  JSON.strip_ws false false (String (pretty_N_char m) t)
  = String (pretty_N_char m) (JSON.strip_ws false false t).
Proof.
  destruct m as [|p]; [reflexivity|].
  do 4 (destruct p as [p|p|]; try reflexivity).
Qed.

Lemma strip_pretty_N_go x : forall s,
  (forall rest, JSON.strip_ws false false (s +:+ rest)
                = s +:+ JSON.strip_ws false false rest) ->
  forall rest, JSON.strip_ws false false (pretty_N_go x s +:+ rest)
               = pretty_N_go x s +:+ JSON.strip_ws false false rest.
Proof.
  induction (N.lt_wf_0 x) as [x _ IH]. intros s Hs rest.
  destruct (decide (0 < x)%N) as [Hx|Hx].
  - rewrite pretty_N_go_step by exact Hx. apply IH.
    + apply N.div_lt; [exact Hx | reflexivity].
    + intros rest'.
      change (String (pretty_N_char (x `mod` 10)) s +:+ rest')
        with (String (pretty_N_char (x `mod` 10)) (s +:+ rest')).
      rewrite strip_digit, Hs. reflexivity.
  - assert (x = 0%N) as -> by lia. rewrite pretty_N_go_0. apply Hs.
Qed.

Lemma strip_pretty (id : Z) rest :
  JSON.strip_ws false false (pretty id +:+ rest)
  = pretty id +:+ JSON.strip_ws false false rest.
Proof.
  assert (forall p : positive,
            JSON.strip_ws false false (pretty p +:+ rest)
            = pretty p +:+ JSON.strip_ws false false rest) as Hp.
  { intros p. unfold pretty, pretty_positive, pretty, pretty_N.
    destruct (decide (N.pos p = 0%N)); [discriminate|].
    apply strip_pretty_N_go. reflexivity. }
  destruct id as [|p|p]; unfold pretty, pretty_Z; [reflexivity | apply Hp|].
  change (JSON.strip_ws false false (String "-" (pretty p +:+ rest))
          = String "-" (pretty p +:+ JSON.strip_ws false false rest)).
  rewrite <- Hp. reflexivity.
Qed.

Lemma append_assoc (a b c : string) : (a +:+ b) +:+ c = a +:+ (b +:+ c).
Proof.
  induction a as [|x a IH]; [reflexivity|].
  change (String x ((a +:+ b) +:+ c) = String x (a +:+ (b +:+ c))).
  rewrite IH. reflexivity.
Qed.

Lemma strip_quote_char c t :
  JSON.strip_ws true false (JSON.quote_char c +:+ t)
  = JSON.quote_char c +:+ JSON.strip_ws true false t.
Proof.
  destruct c as [[] [] [] [] [] [] [] []]; reflexivity.
Qed.

Lemma strip_quote_body s rest :
  JSON.strip_ws true false (JSON.quote_body s +:+ rest)
  = JSON.quote_body s +:+ JSON.strip_ws true false rest.
Proof.
  induction s as [|c s IH]; [reflexivity|].
  cbn [JSON.quote_body]. rewrite !append_assoc, strip_quote_char, IH. reflexivity.
Qed.

Lemma strip_quote s rest :
  JSON.strip_ws false false (JSON.quote s +:+ rest)
  = JSON.quote s +:+ JSON.strip_ws false false rest.
Proof.
  unfold JSON.quote, JSON.dquote. rewrite !append_assoc.
  change (JSON.strip_ws false false
            (String JSON.dquote_char
               (JSON.quote_body s +:+ String JSON.dquote_char rest))
          = String JSON.dquote_char
              (JSON.quote_body s
               +:+ String JSON.dquote_char (JSON.strip_ws false false rest))).
  change (String JSON.dquote_char
            (JSON.strip_ws true false
               (JSON.quote_body s +:+ String JSON.dquote_char rest))
          = String JSON.dquote_char
              (JSON.quote_body s
               +:+ String JSON.dquote_char (JSON.strip_ws false false rest))).
  rewrite strip_quote_body. reflexivity.
Qed.

(** X11.  Every message sent for a boolean value, so every message of the
    drag listeners, is laid out in the same nine lines, whatever the
    identifier and the event name: the identifier in decimal digits, the
    event name as a JSON string literal, the value as [true] or [false].
    Its white space lies outside the literals only: removing it gives the
    compact envelope, which is also what serialising without indentation
    gives. *)
Theorem message_wire_text id event b :
  message_of id event (JBool b) = JStr (indented_envelope id event (bool_text b))
  /\ JSON.strip_ws false false (indented_envelope id event (bool_text b))
     = compact_envelope id event (bool_text b)
  /\ JSON.stringify (envelope id event (JBool b)) 0
     = JStr (compact_envelope id event (bool_text b)).
Proof.
  split; [|split].
  - unfold message_of, JSON.stringify, envelope, indented_envelope, bool_text.
    cbn [JSON.ser]. generalize (pretty id) (JSON.quote event). intros P Q.
    destruct b; cbv -[String.append]; rewrite !append_assoc; reflexivity.
  - unfold indented_envelope, compact_envelope.
    assert (forall X, JSON.strip_ws false false (dq "{
  'payload': {
    'id': " +:+ X) = dq "{'payload':{'id':" +:+ JSON.strip_ws false false X) as H1
      by (intros X; reflexivity).
    assert (forall X, JSON.strip_ws false false (dq ",
    'event': {
      'type': " +:+ X) = dq ",'event':{'type':" +:+ JSON.strip_ws false false X) as H2
      by (intros X; reflexivity).
    rewrite H1, strip_pretty, H2, strip_quote. destruct b; reflexivity.
  - unfold JSON.stringify, envelope, compact_envelope, bool_text.
    cbn [JSON.ser]. generalize (pretty id) (JSON.quote event). intros P Q.
    destruct b; cbv -[String.append]; rewrite !append_assoc; reflexivity.
Qed.
